(** * reposync: reconciling a directory of checkouts with a GitHub account

    A shallow embedding of [main.go].  Go strings are [string], slices are
    [list], Go's [int] is [Z], an [error] is the text its [Error()] method
    gives ([nil] is [None]).  Everything the program does to the outside
    (log lines, GitHub page requests, directory reads, mkdir, rename,
    [git clone]) is recorded as an [event]; what the outside answers is
    read from a [World]. *)

From Stdlib Require Import List String Ascii ZArith Bool Lia Arith.
Import ListNotations.
Local Open Scope string_scope.
Local Open Scope list_scope.

(** ** Set utilities ([Contains], [Difference]) *)

(** [for _, str := range list { if str == el { return true } }; return false] *)
Fixpoint Contains (list : list string) (el : string) : bool :=
  match list with
  | [] => false
  | str :: rest => if String.eqb str el then true else Contains rest el
  end.

(** The loop of [Difference], with the slice [diff] built so far. *)
Fixpoint Difference_loop (a b diff : list string) : list string :=
  match a with
  | [] => diff
  | str :: rest =>
      if Contains b str then Difference_loop rest b diff
      else Difference_loop rest b (diff ++ [str])
  end.

Definition Difference (a b : list string) : list string :=
  Difference_loop a b [].

(** ** Library types the program uses *)

(** A Go [error], by the text of its [Error()] method. *)
Definition error := string.

Module github.
(** [github.Repository]: the two fields the program reads, both pointers. *)
Record Repository := { Name : option string; Fork : option bool }.
Record Response := { NextPage : Z }.
Record ListOptions := { Page : Z; PerPage : Z }.
Record RepositoryListByOrgOptions :=
  { OrgType : string; OrgListOptions : ListOptions }.
Record RepositoryListOptions :=
  { UserType : string; UserListOptions : ListOptions }.
End github.

Module os.
(** [os.FileInfo], with the two methods the program calls. *)
Record FileInfo := { Name : string; IsDir : bool }.
End os.

Module strings.
(** [strings.Index(s, substr)]: the index of the first instance of
    [substr] in [s], or -1 if there is none. *)
Fixpoint Index_from (s substr : string) (i : Z) : Z :=
  if String.prefix substr s then i
  else match s with
       | EmptyString => (-1)%Z
       | String _ s' => Index_from s' substr (i + 1)
       end.
Definition Index (s substr : string) : Z := Index_from s substr 0.
End strings.

(** ** Events and the world *)

(** A page request to the GitHub API, made by a client that authenticates
    with [token]. *)
Inductive request :=
| ListByOrg (token org : string) (opt : github.RepositoryListByOrgOptions)
| ListUser (token user : string) (opt : github.RepositoryListOptions).

(** A [Log] event carries the text of one log line, without the date
    prefix and the final newline that the [log] package adds. *)
Inductive event :=
| Stdout (text : string)                      (* fmt.Println *)
| Log (line : string)                         (* log.Print, log.Printf, log.Fatal *)
| Request (r : request)                       (* client.Repositories.List... *)
| ReadDir (dirname : string)                  (* ioutil.ReadDir *)
| MkdirAll (path : string) (perm : Z)         (* os.MkdirAll *)
| Rename (oldpath newpath : string)           (* os.Rename *)
| Exec (name : string) (args : list string).  (* exec.Command(...).CombinedOutput() *)

(** What the outside answers.  The [n]-th page request of a run
    (counting from 0) is answered by [api n]: the provider may answer the
    same request differently at different times.  The other calls are
    answered from their arguments.  [path_Join] is [path.Join]. *)
Record World := {
  api : nat -> request ->
        (list github.Repository * github.Response) + error;
  dir_entries : string -> list os.FileInfo + error;
  mkdir_all : string -> Z -> option error;
  rename : string -> string -> option error;
  combined_output : string -> list string -> string * option error;
  path_Join : string -> string -> string
}.

(** [ioutil.ReadDir]: "If an error occurs reading the directory, ReadDir
    returns no directory entries along with the error." *)
Definition ioutil_ReadDir (w : World) (dirname : string)
  : list os.FileInfo * option error :=
  match dir_entries w dirname with
  | inl files => (files, None)
  | inr err => ([], Some err)
  end.

(** ** Program state and its monad *)

(** [trace]: the events of the main goroutine, in order.  [calls]: page
    requests made so far.  [allRepos], [currentRepos]: the two variables
    of [Sync] that its closures capture and append to.  [spawned]: the
    events of each goroutine started with [go], one trace per goroutine. *)
Record St := {
  trace : list event;
  calls : nat;
  allRepos : list string;
  currentRepos : list string;
  spawned : list (list event)
}.

Definition init : St :=
  {| trace := []; calls := 0; allRepos := []; currentRepos := [];
     spawned := [] |}.

(** A computation either runs forever ([None]) or ends with a value and a
    state. *)
Definition M (A : Type) : Type := St -> option (A * St).

Definition ret {A} (a : A) : M A := fun st => Some (a, st).

Definition bind {A B} (m : M A) (k : A -> M B) : M B :=
  fun st => match m st with
            | None => None
            | Some (a, st') => k a st'
            end.

Notation "x <- m ;; k" := (bind m (fun x => k))
  (at level 61, m at next level, right associativity).
Notation "m ;; k" := (bind m (fun _ => k))
  (at level 61, right associativity).

Definition get : M St := fun st => Some (st, st).

(** The state once the main goroutine has done [e]. *)
Definition record (e : event) (st : St) : St :=
  {| trace := trace st ++ [e]; calls := calls st;
     allRepos := allRepos st; currentRepos := currentRepos st;
     spawned := spawned st |}.

Definition emit (e : event) : M unit := fun st => Some (tt, record e st).

(** The state once the main goroutine has done the events [evs], and the
    state once goroutines with the traces [ts] have been started. *)
Definition records (evs : list event) (st : St) : St :=
  {| trace := trace st ++ evs; calls := calls st;
     allRepos := allRepos st; currentRepos := currentRepos st;
     spawned := spawned st |}.

Definition started (ts : list (list event)) (st : St) : St :=
  {| trace := trace st; calls := calls st;
     allRepos := allRepos st; currentRepos := currentRepos st;
     spawned := spawned st ++ ts |}.

Definition append_allRepos (name : string) : M unit := fun st =>
  Some (tt, {| trace := trace st; calls := calls st;
               allRepos := allRepos st ++ [name];
               currentRepos := currentRepos st; spawned := spawned st |}).

Definition append_currentRepos (name : string) : M unit := fun st =>
  Some (tt, {| trace := trace st; calls := calls st;
               allRepos := allRepos st;
               currentRepos := currentRepos st ++ [name];
               spawned := spawned st |}).

(** One page request: recorded, counted, answered by the world. *)
Definition fetch (w : World) (r : request)
  : M ((list github.Repository * github.Response) + error) := fun st =>
  Some (api w (calls st) r,
        {| trace := trace st ++ [Request r]; calls := S (calls st);
           allRepos := allRepos st; currentRepos := currentRepos st;
           spawned := spawned st |}).

(** [go f]: [f] runs in a goroutine of its own, from the variables as they
    are now; its events make one more trace of [spawned].  The goroutines
    of this program write to no captured variable, so the caller's
    variables stay as they are. *)
Definition go (f : M unit) : M unit := fun st =>
  match f {| trace := []; calls := calls st; allRepos := allRepos st;
             currentRepos := currentRepos st; spawned := [] |} with
  | None => None
  | Some (_, st') =>
      Some (tt, {| trace := trace st; calls := calls st;
                   allRepos := allRepos st; currentRepos := currentRepos st;
                   spawned := spawned st ++ [trace st'] |})
  end.

(** The ways the traces of the goroutines can be merged into one
    sequence of events. *)
Inductive interleave : list (list event) -> list event -> Prop :=
| interleave_nil : interleave [] []
| interleave_skip ts il : interleave ts il -> interleave ([] :: ts) il
| interleave_step ts1 e t ts2 il :
    interleave (ts1 ++ t :: ts2) il ->
    interleave (ts1 ++ (e :: t) :: ts2) (e :: il).

(** The sequences of events an observer can see of a finished run:
    the goroutines are all started after the last event of the main
    goroutine, which then only waits for them. *)
Definition observable (st : St) (t : list event) : Prop :=
  exists il, interleave (spawned st) il /\ t = trace st ++ il.

(** An event that changes the file system. *)
Definition mutation (e : event) : bool :=
  match e with
  | MkdirAll _ _ | Rename _ _ | Exec _ _ => true
  | _ => false
  end.

(** ** Task *)

Record Task := { task : M (option error); description : string }.

Definition NewTask (task : M (option error)) (description : string) : Task :=
  {| task := task; description := description |}.

Definition log_Printf (line : string) : M unit := emit (Log line).

Definition Run (tws : Task) : M unit :=
  log_Printf ("begin " ++ description tws) ;;
  err <- task tws ;;
  match err with
  | Some err => log_Printf ("error " ++ description tws ++ ": " ++ err)
  | None => log_Printf ("finished " ++ description tws)
  end.

(** ** RepoSync *)

Record RepoSync := {
  org : string;
  orgRepoType : string;
  user : string;
  userRepoType : string;
  userRepoForks : bool;
  workdir : string;
  archivedir : string;
  token : string;
  dryrun : bool
}.

(** [for _, repo := range repos]: append the name of every repository
    that has one and that [skip] does not exclude. *)
Fixpoint collect (skip : github.Repository -> bool)
    (repos : list github.Repository) : M unit :=
  match repos with
  | [] => ret tt
  | repo :: rest =>
      match github.Name repo with
      | None => collect skip rest
      | Some name =>
          if skip repo then collect skip rest
          else append_allRepos name ;; collect skip rest
      end
  end.

(** The [for { ... }] loop over the pages, shared by the two modes:
    [call page] is the request with [opt.ListOptions.Page = page].
    [fuel] bounds the number of pages; the loop itself has no bound. *)
Fixpoint pages (fuel : nat) (w : World) (call : Z -> request)
    (skip : github.Repository -> bool) (page : Z) : M (option error) :=
  match fuel with
  | O => fun _ => None
  | S fuel' =>
      r <- fetch w (call page) ;;
      match r with
      | inr err => ret (Some err)
      | inl (repos, resp) =>
          collect skip repos ;;
          if (github.NextPage resp =? 0)%Z then ret None
          else pages fuel' w call skip (github.NextPage resp)
      end
  end.

Definition call_org (rs : RepoSync) (page : Z) : request :=
  ListByOrg (token rs) (org rs)
    {| github.OrgType := orgRepoType rs;
       github.OrgListOptions := {| github.Page := page; github.PerPage := 100 |} |}.

Definition call_user (rs : RepoSync) (page : Z) : request :=
  ListUser (token rs) (user rs)
    {| github.UserType := userRepoType rs;
       github.UserListOptions := {| github.Page := page; github.PerPage := 1000 |} |}.

(** [rs.userRepoForks == false && repo.Fork != nil && *repo.Fork] *)
Definition skip_fork (rs : RepoSync) (repo : github.Repository) : bool :=
  Bool.eqb (userRepoForks rs) false &&
  match github.Fork repo with
  | Some fork => fork
  | None => false
  end.

(** The closure of the first task of [Sync]. *)
Definition load_remote (rs : RepoSync) (w : World) (fuel : nat)
  : M (option error) :=
  if negb (org rs =? "") then
    pages fuel w (call_org rs) (fun _ => false) 0
  else if negb (user rs =? "") then
    pages fuel w (call_user rs) (skip_fork rs) 0
  else ret None.

(** [for _, f := range files] of the second task. *)
Fixpoint scan (files : list os.FileInfo) : M unit :=
  match files with
  | [] => ret tt
  | f :: rest =>
      if negb (os.IsDir f) || (strings.Index (os.Name f) "." =? 0)%Z
      then scan rest
      else append_currentRepos (os.Name f) ;; scan rest
  end.

(** The closure of the second task of [Sync]. *)
Definition load_local (rs : RepoSync) (w : World) : M (option error) :=
  emit (ReadDir (workdir rs)) ;;
  let (files, _) := ioutil_ReadDir w (workdir rs) in
  scan files ;;
  ret None.

(** The task of an archiving goroutine. *)
Definition archive (rs : RepoSync) (w : World) (r : string) : Task :=
  NewTask
    (if dryrun rs then ret None
     else
       let oldpath := path_Join w (workdir rs) r in
       let newpath := path_Join w (archivedir rs) r in
       emit (Rename oldpath newpath) ;;
       ret (rename w oldpath newpath))
    ("archiving " ++ r).

(** [exec.Command("git", "clone", "git@github.com:<account>/<r>", dest)
    .CombinedOutput()], the error wrapped with the output. *)
Definition git_clone (w : World) (account r dest : string) : M (option error) :=
  let args := ["clone"; ("git@github.com:" ++ account ++ "/" ++ r)%string; dest] in
  emit (Exec "git" args) ;;
  match combined_output w "git" args with
  | (output, Some err) => ret (Some (err ++ " from " ++ output)%string)
  | (_, None) => ret None
  end.

(** The task of a cloning goroutine. *)
Definition clone (rs : RepoSync) (w : World) (r : string) : Task :=
  NewTask
    (if dryrun rs then ret None
     else if negb (org rs =? "") then
       git_clone w (org rs) r (path_Join w (workdir rs) r)
     else
       git_clone w (user rs) r (path_Join w (workdir rs) r))
    ("cloning " ++ r).

(** [for _, repo := range repos { go func(r string) { ... }(repo) }] *)
Fixpoint spawn_each (mk : string -> Task) (repos : list string) : M unit :=
  match repos with
  | [] => ret tt
  | repo :: rest => go (Run (mk repo)) ;; spawn_each mk rest
  end.

Definition Sync (rs : RepoSync) (w : World) (fuel : nat) : M (option error) :=
  Run (NewTask (load_remote rs w fuel)
         ("loading repos for " ++ org rs ++ " " ++ user rs)) ;;
  Run (NewTask (load_local rs w)
         ("loading repos already cloned in " ++ workdir rs)) ;;
  st <- get ;;
  let reposToArchive := Difference (currentRepos st) (allRepos st) in
  let reposToClone := Difference (allRepos st) (currentRepos st) in
  if (List.length reposToArchive + List.length reposToClone =? 0)%nat then
    emit (Log "nothing to do!") ;;
    ret None
  else
    emit (MkdirAll (archivedir rs) 493) ;;
    match mkdir_all w (archivedir rs) 493 with
    | Some err => ret (Some err)
    | None =>
        spawn_each (archive rs w) reposToArchive ;;
        spawn_each (clone rs w) reposToClone ;;
        (* archivers.Wait(); cloners.Wait() *)
        ret None
    end.

(** ** main *)

Record Flags := {
  flag_version : bool;
  flag_user : string;
  flag_userrepotype : string;
  flag_userrepoforks : bool;
  flag_org : string;
  flag_orgrepotype : string;
  flag_dir : string;
  flag_archivedir : string;
  flag_token : string;
  flag_dryrun : bool
}.

(** [log.Fatal]: the line is logged and the process exits with status 1. *)
Definition log_Fatal (line : string) : M Z := emit (Log line) ;; ret 1%Z.

(** The [RepoSync] that [main] builds from the flags. *)
Definition RepoSync_of (fl : Flags) : RepoSync :=
  {| user := flag_user fl;
     userRepoType := flag_userrepotype fl;
     userRepoForks := flag_userrepoforks fl;
     org := flag_org fl;
     orgRepoType := flag_orgrepotype fl;
     workdir := flag_dir fl;
     archivedir := flag_archivedir fl;
     token := flag_token fl;
     dryrun := flag_dryrun fl |}.

(** [main], by the exit status of the process. *)
Definition main (Version : string) (fl : Flags) (w : World) (fuel : nat) : M Z :=
  if flag_version fl then
    emit (Stdout (Version ++ String "010"%char "")) ;; ret 0%Z
  else if (flag_user fl =? "") && (flag_org fl =? "") then
    log_Fatal "must provide user or org"
  else if flag_dir fl =? "" then log_Fatal "must provide dir"
  else if flag_archivedir fl =? "" then log_Fatal "must provide archivedir"
  else if flag_token fl =? "" then log_Fatal "must provide token"
  else
    let rs := RepoSync_of fl in
    err <- Sync rs w fuel ;;
    match err with
    | Some err => log_Fatal err
    | None => ret 0%Z
    end.

(** ** Phases of [Sync], named for the statements below *)

(** The two listing tasks that open [Sync]. *)
Definition listings (rs : RepoSync) (w : World) (fuel : nat) : M unit :=
  Run (NewTask (load_remote rs w fuel)
         ("loading repos for " ++ org rs ++ " " ++ user rs)) ;;
  Run (NewTask (load_local rs w)
         ("loading repos already cloned in " ++ workdir rs)).

(** The events of the goroutine that archives [r]. *)
Definition archive_events (rs : RepoSync) (w : World) (r : string) : list event :=
  if dryrun rs then
    [Log ("begin archiving " ++ r); Log ("finished archiving " ++ r)]
  else
    let oldpath := path_Join w (workdir rs) r in
    let newpath := path_Join w (archivedir rs) r in
    [Log ("begin archiving " ++ r);
     Rename oldpath newpath;
     Log (match rename w oldpath newpath with
          | None => "finished archiving " ++ r
          | Some err => "error archiving " ++ r ++ ": " ++ err
          end)].

(** The account whose repositories are cloned. *)
Definition account (rs : RepoSync) : string :=
  if negb (org rs =? "") then org rs else user rs.

(** The events of the goroutine that clones [r]. *)
Definition clone_events (rs : RepoSync) (w : World) (r : string) : list event :=
  if dryrun rs then
    [Log ("begin cloning " ++ r); Log ("finished cloning " ++ r)]
  else
    let args := ["clone"; ("git@github.com:" ++ account rs ++ "/" ++ r)%string;
                 path_Join w (workdir rs) r] in
    [Log ("begin cloning " ++ r);
     Exec "git" args;
     Log (match combined_output w "git" args with
          | (_, None) => "finished cloning " ++ r
          | (output, Some err) =>
              "error cloning " ++ r ++ ": " ++ err ++ " from " ++ output
          end)].

(** The names [collect skip] appends for one page. *)
Definition names (skip : github.Repository -> bool)
    (repos : list github.Repository) : list string :=
  flat_map (fun repo => match github.Name repo with
                        | Some name => if skip repo then [] else [name]
                        | None => []
                        end) repos.

(** The request and the filter of the mode [rs] selects. *)
Definition remote_call (rs : RepoSync) : Z -> request :=
  if negb (org rs =? "") then call_org rs else call_user rs.

Definition remote_skip (rs : RepoSync) : github.Repository -> bool :=
  if negb (org rs =? "") then fun _ => false else skip_fork rs.

(** How the provider answers a run of page requests that starts with the
    [n]-th request of the run, for page [page]: [reqs] are the pages
    asked for, [ps] the pages of repositories received, and the run ends
    either with a response whose [NextPage] is 0 ([None]) or with an
    error ([Some err]). *)
Inductive served (w : World) (call : Z -> request)
  : nat -> Z -> list Z -> list (list github.Repository) -> option error -> Prop :=
| served_last n page repos resp :
    api w n (call page) = inl (repos, resp) ->
    github.NextPage resp = 0%Z ->
    served w call n page [page] [repos] None
| served_error n page err :
    api w n (call page) = inr err ->
    served w call n page [page] [] (Some err)
| served_next n page repos resp reqs ps r :
    api w n (call page) = inl (repos, resp) ->
    github.NextPage resp <> 0%Z ->
    served w call (S n) (github.NextPage resp) reqs ps r ->
    served w call n page (page :: reqs) (repos :: ps) r.

(** The state after the page requests [reqs] made by [call] have brought
    the pages [ps], filtered by [skip]. *)
Definition listed (call : Z -> request) (skip : github.Repository -> bool)
    (reqs : list Z) (ps : list (list github.Repository)) (st : St) : St :=
  {| trace := trace st ++ map (fun page => Request (call page)) reqs;
     calls := calls st + List.length reqs;
     allRepos := allRepos st ++ flat_map (names skip) ps;
     currentRepos := currentRepos st;
     spawned := spawned st |}.

(** The entries of a directory that count as checkouts: directories whose
    name does not begin with a dot. *)
Definition checkout (f : os.FileInfo) : bool :=
  os.IsDir f && negb (String.prefix "." (os.Name f)).

Definition checkouts (w : World) (dirname : string) : list string :=
  match dir_entries w dirname with
  | inl files => map os.Name (filter checkout files)
  | inr _ => []
  end.

(** The state after the two listing tasks, when the first one has ended
    with [r] in the state [st1]. *)
Definition scanned (rs : RepoSync) (w : World) (r : option error) (st1 : St)
  : St :=
  {| trace :=
       trace st1 ++
       [Log (match r with
             | None => "finished loading repos for " ++ org rs ++ " " ++ user rs
             | Some err =>
                 "error loading repos for " ++ org rs ++ " " ++ user rs
                 ++ ": " ++ err
             end);
        Log ("begin loading repos already cloned in " ++ workdir rs);
        ReadDir (workdir rs);
        Log ("finished loading repos already cloned in " ++ workdir rs)];
     calls := calls st1;
     allRepos := allRepos st1;
     currentRepos := currentRepos st1 ++ checkouts w (workdir rs);
     spawned := spawned st1 |}.

(** What [Sync] returns, and the state it ends in, when the listings have
    ended in the state [st]. *)
Definition reconciled (rs : RepoSync) (w : World) (st : St)
  : option error * St :=
  let reposToArchive := Difference (currentRepos st) (allRepos st) in
  let reposToClone := Difference (allRepos st) (currentRepos st) in
  if (List.length reposToArchive + List.length reposToClone =? 0)%nat then
    (None, record (Log "nothing to do!") st)
  else
    match mkdir_all w (archivedir rs) 493 with
    | Some err => (Some err, record (MkdirAll (archivedir rs) 493) st)
    | None =>
        (None,
         started (map (archive_events rs w) reposToArchive ++
                  map (clone_events rs w) reposToClone)
           (record (MkdirAll (archivedir rs) 493) st))
    end.

(** ** Worlds and configurations for the examples *)

Definition named (name : string) : github.Repository :=
  {| github.Name := Some name; github.Fork := None |}.

Definition fork_of (name : string) : github.Repository :=
  {| github.Name := Some name; github.Fork := Some true |}.

Definition nameless : github.Repository :=
  {| github.Name := None; github.Fork := None |}.

Definition dir (name : string) : os.FileInfo :=
  {| os.Name := name; os.IsDir := true |}.

Definition file (name : string) : os.FileInfo :=
  {| os.Name := name; os.IsDir := false |}.

(** A world where the file system and [git] never fail. *)
Definition world_of
    (api : nat -> request -> (list github.Repository * github.Response) + error)
    (entries : list os.FileInfo + error) : World :=
  {| api := api;
     dir_entries := fun _ => entries;
     mkdir_all := fun _ _ => None;
     rename := fun _ _ => None;
     combined_output := fun _ _ => ("", None);
     path_Join := fun a b => (a ++ "/" ++ b)%string |}.

Definition page_of (r : request) : Z :=
  match r with
  | ListByOrg _ _ opt => github.Page (github.OrgListOptions opt)
  | ListUser _ _ opt => github.Page (github.UserListOptions opt)
  end.

(** Two pages: page 0 points to page 2, page 2 is the last one. *)
Definition two_pages (n : nat) (r : request)
  : (list github.Repository * github.Response) + error :=
  if (page_of r =? 0)%Z then
    inl ([named "a"; fork_of "b"; nameless], {| github.NextPage := 2 |})
  else
    inl ([named "c"], {| github.NextPage := 0 |}).

(** The first page is served, the request for the second one fails. *)
Definition second_page_fails (n : nat) (r : request)
  : (list github.Repository * github.Response) + error :=
  if (page_of r =? 0)%Z then
    inl ([named "a"], {| github.NextPage := 2 |})
  else
    inr "502 Bad Gateway".

(** Every request fails. *)
Definition unreachable (n : nat) (r : request)
  : (list github.Repository * github.Response) + error :=
  inr "dial tcp: i/o timeout".

Definition config (org user : string) (forks dryrun : bool) : RepoSync :=
  {| org := org; orgRepoType := "all"; user := user; userRepoType := "all";
     userRepoForks := forks; workdir := "/w"; archivedir := "/old";
     token := "t"; dryrun := dryrun |}.

(** An organization with two pages of repositories, checked out in part. *)
Definition acme (dryrun : bool) : RepoSync := config "acme" "me" false dryrun.

Definition acme_world : World :=
  world_of two_pages (inl [dir "a"; dir ".cache"; file "notes"; dir "x"]).

(** The organization is unreachable and two checkouts are on disk. *)
Definition offline_world : World :=
  world_of unreachable (inl [dir "a"; dir "x"]).

(** The second page of the organization cannot be fetched; the checkout
    [c] is of a repository on that page. *)
Definition flaky_world : World :=
  world_of second_page_fails (inl [dir "a"; dir "c"]).

(** Every repository of the organization is checked out. *)
Definition synced_world : World :=
  world_of two_pages (inl [dir "a"; dir "b"; dir "c"; file "README"]).

(** The states the listings end in, in these worlds. *)
Definition state_of (r : option (unit * St)) : St :=
  match r with
  | Some (_, st) => st
  | None => init
  end.

Definition acme_listed : St :=
  Eval vm_compute in state_of (listings (acme false) acme_world 2 init).

Definition synced_listed : St :=
  Eval vm_compute in state_of (listings (acme false) synced_world 2 init).

Definition both_flags : Flags :=
  {| flag_version := false; flag_user := "me"; flag_userrepotype := "owner";
     flag_userrepoforks := false; flag_org := "acme";
     flag_orgrepotype := "all"; flag_dir := "/w"; flag_archivedir := "/old";
     flag_token := "t"; flag_dryrun := false |}.

(** ** Order of events, and more worlds *)

(** [subseq s l]: the events of [s] occur in [l], in the order of [s]. *)
Inductive subseq : list event -> list event -> Prop :=
| subseq_nil l : subseq [] l
| subseq_keep e s l : subseq s l -> subseq (e :: s) (e :: l)
| subseq_skip e s l : subseq s l -> subseq s (e :: l).

(** The names in one list and not in the other, either way. *)
Definition plan (st : St) : list string :=
  Difference (currentRepos st) (allRepos st) ++
  Difference (allRepos st) (currentRepos st).

(** The world of [acme_world], where the archive directory cannot be
    created. *)
Definition readonly_world : World :=
  {| api := api acme_world;
     dir_entries := dir_entries acme_world;
     mkdir_all := fun _ _ => Some "mkdir /old: permission denied";
     rename := rename acme_world;
     combined_output := combined_output acme_world;
     path_Join := path_Join acme_world |}.

(** The world of [acme_world], where every rename and every [git] fails. *)
Definition failing_world : World :=
  {| api := api acme_world;
     dir_entries := dir_entries acme_world;
     mkdir_all := mkdir_all acme_world;
     rename := fun _ _ => Some "permission denied";
     combined_output :=
       fun _ _ => ("fatal: repository not found", Some "exit status 128");
     path_Join := path_Join acme_world |}.

(** A provider whose every response names a next page. *)
Definition endless (n : nat) (r : request)
  : (list github.Repository * github.Response) + error :=
  inl ([named "a"], {| github.NextPage := 1 |}).

Definition endless_world : World := world_of endless (inl [dir "a"]).

Definition no_token_flags : Flags :=
  {| flag_version := false; flag_user := "me"; flag_userrepotype := "all";
     flag_userrepoforks := true; flag_org := ""; flag_orgrepotype := "all";
     flag_dir := "/w"; flag_archivedir := "/old"; flag_token := "";
     flag_dryrun := false |}.

(** ** Facts about the set utilities *)

Lemma Contains_In (l : list string) (el : string) :
  Contains l el = true <-> In el l.
Proof.
  induction l as [|s l IH]; simpl.
  - split; [discriminate | tauto].
  - destruct (String.eqb_spec s el) as [->|Hne].
    + tauto.
    + rewrite IH. split; [tauto|]. intros [H|H]; [congruence | exact H].
Qed.

Lemma Contains_false_iff (l : list string) (el : string) :
  Contains l el = false <-> ~ In el l.
Proof.
  rewrite <- Contains_In. destruct (Contains l el); split; congruence.
Qed.

Lemma Difference_loop_filter (a b diff : list string) :
  Difference_loop a b diff = diff ++ filter (fun s => negb (Contains b s)) a.
Proof.
  revert diff. induction a as [|s a IH]; intros diff; simpl.
  - now rewrite app_nil_r.
  - destruct (Contains b s); simpl; rewrite IH.
    + reflexivity.
    + now rewrite <- app_assoc.
Qed.

Lemma Difference_filter (a b : list string) :
  Difference a b = filter (fun s => negb (Contains b s)) a.
Proof. unfold Difference. now rewrite Difference_loop_filter. Qed.

Lemma Difference_In (a b : list string) (s : string) :
  In s (Difference a b) <-> In s a /\ ~ In s b.
Proof.
  rewrite Difference_filter, filter_In, negb_true_iff, Contains_false_iff.
  tauto.
Qed.

Lemma Difference_nil_iff (a b : list string) :
  Difference a b = [] <-> incl a b.
Proof.
  split.
  - intros H s Hs. destruct (Contains b s) eqn:E.
    + now apply Contains_In.
    + assert (In s (Difference a b)) as Hin
        by (apply Difference_In; split; [exact Hs | now apply Contains_false_iff]).
      rewrite H in Hin. destruct Hin.
  - intros H. destruct (Difference a b) as [|s l] eqn:E; [reflexivity|].
    assert (In s (Difference a b)) as Hin by (rewrite E; now left).
    apply Difference_In in Hin. destruct Hin as [Ha Hb]. elim Hb. now apply H.
Qed.

(** C4. For all string lists [a] and [b], [Difference a b] is [a] with
    exactly the elements that have an equal element in [b] removed: the
    order of [a] and its duplicates are kept (it is the [filter] of [a] by
    "not in [b]", so each element occurs as often as in [a] when it is not in
    [b], and not at all otherwise).  In particular [Difference a a] is
    empty, [Difference a [] = a] and [Difference [] b = []]. *)
Theorem Difference_spec (a b : list string) :
  Difference a b = filter (fun s => negb (Contains b s)) a
  /\ (forall s, Contains b s = true <-> In s b)
  /\ (forall s, In s (Difference a b) <-> In s a /\ ~ In s b)
  /\ (forall s, ~ In s b ->
        count_occ string_dec (Difference a b) s = count_occ string_dec a s)
  /\ Difference a a = []
  /\ Difference a [] = a
  /\ Difference [] b = [].
Proof.
  split; [apply Difference_filter|].
  split; [intros s; apply Contains_In|].
  split; [intros s; apply Difference_In|].
  split; [|split; [|split]].
  - intros s Hs. rewrite Difference_filter.
    induction a as [|x a IH]; simpl; [reflexivity|].
    destruct (Contains b x) eqn:E; simpl.
    + destruct (string_dec x s) as [->|_]; [|exact IH].
      apply Contains_In in E. contradiction.
    + destruct (string_dec x s); now rewrite IH.
  - apply Difference_nil_iff, incl_refl.
  - rewrite Difference_filter. induction a as [|x a IH]; [reflexivity|].
    cbn [filter Contains negb]. now f_equal.
  - reflexivity.
Qed.

(** ** Facts about the monad and the primitive steps *)

Lemma string_app_assoc (a b c : string) :
  ((a ++ b) ++ c)%string = (a ++ (b ++ c))%string.
Proof. induction a as [|x a IH]; cbn; [reflexivity | now rewrite IH]. Qed.

Lemma bind_Some {A B} (m : M A) (k : A -> M B) (st st' : St) (a : A) :
  m st = Some (a, st') -> bind m k st = k a st'.
Proof. unfold bind. now intros ->. Qed.

Lemma bind_None {A B} (m : M A) (k : A -> M B) (st : St) :
  m st = None -> bind m k st = None.
Proof. unfold bind. now intros ->. Qed.

Lemma bind_assoc {A B C} (m : M A) (k : A -> M B) (h : B -> M C) (st : St) :
  bind (bind m k) h st = bind m (fun a => bind (k a) h) st.
Proof. unfold bind. destruct (m st) as [[a st']|]; reflexivity. Qed.

Lemma trace_record (e : event) (st : St) :
  trace (record e st) = trace st ++ [e].
Proof. reflexivity. Qed.

(** ** The task runner *)

Lemma Run_eq (tws : Task) (st : St) :
  Run tws st =
  match task tws (record (Log ("begin " ++ description tws)) st) with
  | None => None
  | Some (None, st') =>
      Some (tt, record (Log ("finished " ++ description tws)) st')
  | Some (Some err, st') =>
      Some (tt, record (Log ("error " ++ description tws ++ ": " ++ err)) st')
  end.
Proof.
  unfold Run, log_Printf, bind, emit.
  destruct (task tws _) as [[[err|] st']|]; reflexivity.
Qed.

(** C6. For every action and description, [Run] logs "begin <description>"
    and only then executes the action (the action starts from the state
    whose last event is that line); when the action returns, [Run] logs
    "finished <description>" if it returned no error and
    "error <description>: <cause>" if it returned one, as the next event
    after those of the action.  [Run] returns no value: the error goes to
    the log and not to the caller, whose computation continues the same
    way after a failed task as after a successful one. *)
Theorem Run_logs_and_swallows (action : M (option error)) (desc : string)
    (st : St) :
  let begun := record (Log ("begin " ++ desc)) st in
  trace begun = trace st ++ [Log ("begin " ++ desc)]
  /\ Run (NewTask action desc) st =
     match action begun with
     | None => None
     | Some (None, st') =>
         Some (tt, record (Log ("finished " ++ desc)) st')
     | Some (Some cause, st') =>
         Some (tt, record (Log ("error " ++ desc ++ ": " ++ cause)) st')
     end
  /\ (forall err st', action begun = Some (err, st') ->
        exists line st'',
          Run (NewTask action desc) st = Some (tt, st'')
          /\ trace st'' = trace st' ++ [Log line]
          /\ forall (A : Type) (k : M A),
               (Run (NewTask action desc) ;; k) st = k st'').
Proof.
  intros begun. split; [reflexivity|]. split; [apply Run_eq|].
  intros err st' H. rewrite Run_eq. cbn [task description NewTask].
  fold begun. rewrite H.
  destruct err as [cause|]; eexists; eexists;
    (split; [reflexivity|]); (split; [reflexivity|]);
    intros A k; unfold bind; rewrite Run_eq; cbn [task description NewTask];
    fold begun; rewrite H; reflexivity.
Qed.

(** ** The local lister *)

Lemma Index_from_pos (s substr : string) (i : Z) :
  (0 < i)%Z -> strings.Index_from s substr i <> 0%Z.
Proof.
  revert i. induction s as [|c s IH]; intros i Hi; cbn [strings.Index_from];
    match goal with
    | |- context [String.prefix ?a ?b] => destruct (String.prefix a b)
    end; try lia.
  apply IH. lia.
Qed.

Lemma Index_dot (name : string) :
  (strings.Index name "." =? 0)%Z = String.prefix "." name.
Proof.
  unfold strings.Index. destruct name as [|c s].
  - reflexivity.
  - cbn [strings.Index_from]. destruct (String.prefix "." (String c s)).
    + reflexivity.
    + apply Z.eqb_neq, Index_from_pos. lia.
Qed.

Lemma prefix_dot (name : string) :
  String.prefix "." name = true <-> exists rest, name = String "." rest.
Proof.
  destruct name as [|c s]; cbn [String.prefix].
  - split; [discriminate | intros [rest H]; discriminate].
  - destruct (Ascii.ascii_dec "." c) as [<-|Hne].
    + split; [intros _; eexists; reflexivity | intros _; now destruct s].
    + split; [discriminate|]. intros [rest H]. congruence.
Qed.

Lemma scan_eq (files : list os.FileInfo) (st : St) :
  scan files st =
  Some (tt, {| trace := trace st; calls := calls st; allRepos := allRepos st;
               currentRepos :=
                 currentRepos st ++ map os.Name (filter checkout files);
               spawned := spawned st |}).
Proof.
  revert st. induction files as [|f files IH]; intros st.
  - simpl. rewrite app_nil_r. now destruct st.
  - cbn [scan filter]. unfold checkout at 1. rewrite Index_dot.
    destruct (os.IsDir f), (String.prefix "." (os.Name f)); cbn [negb orb andb];
      try apply IH.
    unfold bind, append_currentRepos. rewrite IH. cbn.
    now rewrite <- app_assoc.
Qed.

Lemma load_local_eq (rs : RepoSync) (w : World) (st : St) :
  load_local rs w st =
  Some (None, {| trace := trace st ++ [ReadDir (workdir rs)];
                 calls := calls st; allRepos := allRepos st;
                 currentRepos := currentRepos st ++ checkouts w (workdir rs);
                 spawned := spawned st |}).
Proof.
  unfold load_local, checkouts, ioutil_ReadDir, bind, emit.
  destruct (dir_entries w (workdir rs)) as [files|err].
  - rewrite scan_eq. reflexivity.
  - cbn. now rewrite app_nil_r.
Qed.

(** C7. The local lister never returns an error and appends to
    [currentRepos] (empty before it in [Sync]) exactly the names, in the
    order of the listing, of the entries of the working directory that
    are directories and whose name does not begin with "."; when reading
    the directory fails it appends nothing, and the task runner logs the
    task as finished. *)
Theorem load_local_lists_checkouts (rs : RepoSync) (w : World) (st : St) :
  exists st',
    load_local rs w st = Some (None, st')
    /\ currentRepos st' =
       currentRepos st ++
       match dir_entries w (workdir rs) with
       | inl files =>
           map os.Name
             (filter (fun f => os.IsDir f && negb (String.prefix "." (os.Name f)))
                files)
       | inr _ => []
       end
    /\ (forall files name, dir_entries w (workdir rs) = inl files ->
          (In name (checkouts w (workdir rs)) <->
           exists f, In f files /\ os.Name f = name /\ os.IsDir f = true
                     /\ ~ exists rest, name = String "." rest))
    /\ (forall err, dir_entries w (workdir rs) = inr err ->
          currentRepos st' = currentRepos st)
    /\ allRepos st' = allRepos st
    /\ forall description,
         exists st'',
           Run (NewTask (load_local rs w) description) st = Some (tt, st'')
           /\ trace st'' =
              trace st ++ [Log ("begin " ++ description); ReadDir (workdir rs);
                           Log ("finished " ++ description)]
           /\ currentRepos st'' = currentRepos st'.
Proof.
  eexists. split; [apply load_local_eq|]. cbn [currentRepos allRepos].
  split; [reflexivity|]. split; [|split; [|split; [reflexivity|]]].
  - intros files name E. unfold checkouts. rewrite E, in_map_iff.
    split.
    + intros [f [Hn Hf]]. apply filter_In in Hf. destruct Hf as [Hin Hc].
      unfold checkout in Hc. apply andb_true_iff in Hc. destruct Hc as [Hd Hp].
      exists f. repeat split; try assumption.
      rewrite negb_true_iff in Hp. intros Hdot. apply prefix_dot in Hdot.
      congruence.
    + intros [f [Hin [Hn [Hd Hp]]]]. exists f. split; [exact Hn|].
      apply filter_In. split; [exact Hin|]. unfold checkout. rewrite Hd.
      cbn [andb]. apply negb_true_iff.
      destruct (String.prefix "." (os.Name f)) eqn:E'; [|reflexivity].
      elim Hp. apply prefix_dot. now rewrite <- Hn.
  - intros err E. unfold checkouts. rewrite E. apply app_nil_r.
  - intros d. rewrite Run_eq. cbn [task description NewTask].
    rewrite load_local_eq. eexists. split; [reflexivity|].
    cbn. rewrite <- !app_assoc. split; reflexivity.
Qed.

(** ** The remote lister *)

Lemma names_In (skip : github.Repository -> bool)
    (repos : list github.Repository) (name : string) :
  In name (names skip repos) <->
  exists repo, In repo repos /\ github.Name repo = Some name
               /\ skip repo = false.
Proof.
  unfold names. rewrite in_flat_map. split.
  - intros [repo [Hin H]]. exists repo. split; [exact Hin|].
    destruct (github.Name repo) as [n|]; [|destruct H].
    destruct (skip repo); [destruct H|].
    destruct H as [<-|[]]. now split.
  - intros [repo [Hin [Hn Hs]]]. exists repo. split; [exact Hin|].
    rewrite Hn, Hs. now left.
Qed.

Lemma skip_fork_true (rs : RepoSync) (repo : github.Repository) :
  skip_fork rs repo = true <->
  userRepoForks rs = false /\ github.Fork repo = Some true.
Proof.
  unfold skip_fork.
  destruct (userRepoForks rs), (github.Fork repo) as [[|]|]; cbn;
    split; try discriminate; try tauto; intros [H1 H2]; discriminate.
Qed.

Lemma collect_eq (skip : github.Repository -> bool)
    (repos : list github.Repository) (st : St) :
  collect skip repos st =
  Some (tt, {| trace := trace st; calls := calls st;
               allRepos := allRepos st ++ names skip repos;
               currentRepos := currentRepos st; spawned := spawned st |}).
Proof.
  revert st. induction repos as [|repo repos IH]; intros st.
  - cbn. rewrite app_nil_r. now destruct st.
  - cbn [collect names flat_map]. fold (names skip repos).
    destruct (github.Name repo) as [name|]; [destruct (skip repo)|];
      cbn [app]; try apply IH.
    unfold bind, append_allRepos. rewrite IH. cbn.
    now rewrite <- app_assoc.
Qed.

(** One turn of the loop: the request is made, then the answer decides. *)
Lemma pages_step (fuel : nat) (w : World) (call : Z -> request)
    (skip : github.Repository -> bool) (page : Z) (st : St) :
  pages (S fuel) w call skip page st =
  match api w (calls st) (call page) with
  | inr err => Some (Some err, listed call skip [page] [] st)
  | inl (repos, resp) =>
      if (github.NextPage resp =? 0)%Z
      then Some (None, listed call skip [page] [repos] st)
      else pages fuel w call skip (github.NextPage resp)
             (listed call skip [page] [repos] st)
  end.
Proof.
  cbn [pages]. unfold bind at 1. unfold fetch.
  destruct (api w (calls st) (call page)) as [[repos resp]|err].
  - unfold bind. rewrite collect_eq. cbn [trace calls allRepos currentRepos spawned].
    unfold listed. cbn [map flat_map List.length].
    rewrite app_nil_r, Nat.add_1_r.
    destruct (github.NextPage resp =? 0)%Z; reflexivity.
  - unfold ret, listed. cbn. now rewrite app_nil_r, Nat.add_1_r.
Qed.

Lemma listed_cons (call : Z -> request) (skip : github.Repository -> bool)
    (page : Z) (reqs : list Z) (repos : list github.Repository)
    (ps : list (list github.Repository)) (st : St) :
  listed call skip reqs ps (listed call skip [page] [repos] st) =
  listed call skip (page :: reqs) (repos :: ps) st.
Proof.
  unfold listed. cbn [trace calls allRepos currentRepos spawned map flat_map
                      List.length].
  rewrite app_nil_r, <- !app_assoc. cbn [app]. f_equal. lia.
Qed.

(** If the provider serves the run [reqs], the loop makes exactly these
    requests, keeps the names of the pages [ps] and ends as the run does,
    whenever the fuel covers the run. *)
Lemma pages_served (w : World) (call : Z -> request)
    (skip : github.Repository -> bool) (n : nat) (page : Z) (reqs : list Z)
    (ps : list (list github.Repository)) (r : option error) :
  served w call n page reqs ps r ->
  forall (fuel : nat) (st : St),
    calls st = n -> List.length reqs <= fuel ->
    pages fuel w call skip page st = Some (r, listed call skip reqs ps st).
Proof.
  induction 1 as [n page repos resp Hapi Hnext
                 |n page err Hapi
                 |n page repos resp reqs ps r Hapi Hnext Hrest IH];
    intros fuel st Hn Hfuel; (destruct fuel as [|fuel]; [cbn in Hfuel; lia|]);
    rewrite pages_step, Hn, Hapi.
  - apply Z.eqb_eq in Hnext. now rewrite Hnext.
  - reflexivity.
  - apply Z.eqb_neq in Hnext. rewrite Hnext.
    rewrite IH; [now rewrite listed_cons | cbn; lia | cbn in Hfuel; lia].
Qed.

(** Whenever the loop ends, the provider has served such a run. *)
Lemma pages_inv (w : World) (call : Z -> request)
    (skip : github.Repository -> bool) (fuel : nat) :
  forall (page : Z) (st st' : St) (r : option error),
    pages fuel w call skip page st = Some (r, st') ->
    exists reqs ps,
      served w call (calls st) page reqs ps r
      /\ List.length reqs <= fuel
      /\ st' = listed call skip reqs ps st.
Proof.
  induction fuel as [|fuel IH]; intros page st st' r H; [discriminate|].
  rewrite pages_step in H.
  destruct (api w (calls st) (call page)) as [[repos resp]|err] eqn:Hapi.
  - destruct (github.NextPage resp =? 0)%Z eqn:Hnext.
    + injection H as <- <-. exists [page], [repos].
      split; [|split; [cbn; lia | reflexivity]].
      apply served_last with resp; [exact Hapi | now apply Z.eqb_eq].
    + apply IH in H. destruct H as [reqs [ps [Hs [Hl ->]]]].
      exists (page :: reqs), (repos :: ps).
      split; [|split; [cbn; lia | apply listed_cons]].
      apply served_next with resp; [exact Hapi | now apply Z.eqb_neq|].
      cbn in Hs. now rewrite Nat.add_1_r in Hs.
  - injection H as <- <-. exists [page], [].
    split; [|split; [cbn; lia | reflexivity]].
    now apply served_error.
Qed.

(** More fuel does not change a loop that has ended. *)
Lemma pages_fuel_mono (w : World) (call : Z -> request)
    (skip : github.Repository -> bool) (fuel fuel' : nat) (page : Z)
    (st st' : St) (r : option error) :
  pages fuel w call skip page st = Some (r, st') ->
  fuel <= fuel' ->
  pages fuel' w call skip page st = Some (r, st').
Proof.
  intros H Hle. apply pages_inv in H. destruct H as [reqs [ps [Hs [Hl ->]]]].
  apply pages_served with (calls st); [exact Hs | reflexivity | lia].
Qed.

Lemma load_remote_eq (rs : RepoSync) (w : World) (fuel : nat) (st : St) :
  org rs <> "" \/ user rs <> "" ->
  load_remote rs w fuel st =
  pages fuel w (remote_call rs) (remote_skip rs) 0 st.
Proof.
  unfold load_remote, remote_call, remote_skip. intros H.
  destruct (String.eqb_spec (org rs) "") as [Ho|Ho]; cbn [negb];
    [|reflexivity].
  destruct (String.eqb_spec (user rs) "") as [Hu|Hu]; cbn [negb];
    [tauto | reflexivity].
Qed.

(** C8. With an organization or a user configured, the remote lister
    ends without error exactly when the provider serves a run of pages
    whose last response, and no earlier one, has [NextPage] 0 (the
    relation [served]); it has then made exactly the requests of that
    run, one per page, each for the page the previous response named, and
    has appended to [allRepos] the names of all the pages in order.  A
    name is appended exactly when its entry has a name and, in user mode
    with [userRepoForks] false, is not flagged as a fork. *)
Theorem load_remote_accumulates (rs : RepoSync) (w : World) (fuel : nat)
    (st st' : St) :
  org rs <> "" \/ user rs <> "" ->
  (load_remote rs w fuel st = Some (None, st') <->
   exists reqs ps,
     served w (remote_call rs) (calls st) 0 reqs ps None
     /\ List.length reqs <= fuel
     /\ List.length ps = List.length reqs
     /\ st' = {| trace := trace st ++
                          map (fun page => Request (remote_call rs page)) reqs;
                 calls := calls st + List.length reqs;
                 allRepos := allRepos st ++ flat_map (names (remote_skip rs)) ps;
                 currentRepos := currentRepos st;
                 spawned := spawned st |})
  /\ (forall repos name,
        In name (names (remote_skip rs) repos) <->
        exists repo, In repo repos /\ github.Name repo = Some name
                     /\ ~ (org rs = "" /\ userRepoForks rs = false
                           /\ github.Fork repo = Some true))
  /\ (forall n page repos resp fuel' st0,
        api w n (remote_call rs page) = inl (repos, resp) ->
        calls st0 = n ->
        (github.NextPage resp = 0%Z ->
         pages (S fuel') w (remote_call rs) (remote_skip rs) page st0 =
         Some (None, listed (remote_call rs) (remote_skip rs) [page] [repos] st0))
        /\ (github.NextPage resp <> 0%Z ->
            pages (S fuel') w (remote_call rs) (remote_skip rs) page st0 =
            pages fuel' w (remote_call rs) (remote_skip rs) (github.NextPage resp)
              (listed (remote_call rs) (remote_skip rs) [page] [repos] st0))).
Proof.
  intros Hmode. split; [|split].
  - rewrite (load_remote_eq rs w fuel st Hmode). split.
    + intros H. apply pages_inv in H. destruct H as [reqs [ps [Hs [Hl ->]]]].
      exists reqs, ps. repeat split; try assumption.
      clear Hl. remember None as r eqn:Hr.
      induction Hs; cbn; [reflexivity | discriminate | f_equal; auto].
    + intros [reqs [ps [Hs [Hl [_ ->]]]]].
      now apply pages_served with (calls st).
  - intros repos name. rewrite names_In. unfold remote_skip.
    destruct (String.eqb_spec (org rs) "") as [Ho|Ho]; cbn [negb].
    + split; intros [repo [Hin [Hn Hs]]]; exists repo;
        (split; [exact Hin|]); (split; [exact Hn|]).
      * intros [_ [Hf Hk]].
        assert (skip_fork rs repo = true) by (apply skip_fork_true; tauto).
        congruence.
      * destruct (skip_fork rs repo) eqn:E; [|reflexivity].
        apply skip_fork_true in E. elim Hs. tauto.
    + split; intros [repo [Hin [Hn Hs]]]; exists repo;
        (split; [exact Hin|]); (split; [exact Hn|]); [tauto | reflexivity].
  - intros n page repos resp fuel' st0 Hapi Hn. subst n.
    split; intros Hnext; rewrite pages_step, Hapi.
    + apply Z.eqb_eq in Hnext. now rewrite Hnext.
    + apply Z.eqb_neq in Hnext. now rewrite Hnext.
Qed.

(** ** Goroutines *)

Lemma Run_archive (rs : RepoSync) (w : World) (r : string) (st : St) :
  Run (archive rs w r) st = Some (tt, records (archive_events rs w r) st).
Proof.
  rewrite Run_eq. unfold archive, archive_events, NewTask.
  cbn [task description]. destruct (dryrun rs).
  - unfold ret, records, record. cbn. now rewrite <- app_assoc.
  - unfold bind, emit, ret.
    destruct (rename w _ _); unfold records, record; cbn;
      now rewrite <- !app_assoc.
Qed.

Lemma git_clone_eq (w : World) (acct r dest : string) (st : St) :
  git_clone w acct r dest st =
  let args := ["clone"; ("git@github.com:" ++ acct ++ "/" ++ r)%string; dest] in
  Some (match combined_output w "git" args with
        | (output, Some err) => Some (err ++ " from " ++ output)%string
        | (_, None) => None
        end, record (Exec "git" args) st).
Proof.
  unfold git_clone, bind, emit, ret. cbv zeta.
  destruct (combined_output w _ _) as [output [err|]]; reflexivity.
Qed.

Lemma Run_clone (rs : RepoSync) (w : World) (r : string) (st : St) :
  Run (clone rs w r) st = Some (tt, records (clone_events rs w r) st).
Proof.
  rewrite Run_eq. unfold clone, clone_events, account, NewTask.
  cbn [task description]. destruct (dryrun rs).
  - unfold ret, records, record. cbn. now rewrite <- app_assoc.
  - destruct (negb (org rs =? "")); rewrite git_clone_eq; cbv zeta;
      destruct (combined_output w _ _) as [output [err|]];
      unfold records, record; cbn; now rewrite <- !app_assoc.
Qed.

Lemma spawn_each_eq (mk : string -> Task) (ev : string -> list event) :
  (forall r st0, Run (mk r) st0 = Some (tt, records (ev r) st0)) ->
  forall repos st,
    spawn_each mk repos st = Some (tt, started (map ev repos) st).
Proof.
  intros Hrun. induction repos as [|r repos IH]; intros st.
  - unfold started. cbn. rewrite app_nil_r. now destruct st.
  - cbn [spawn_each map]. unfold bind, go. rewrite Hrun, IH.
    unfold started, records. cbn. now rewrite <- app_assoc.
Qed.

(** Merging the traces of goroutines keeps exactly their events. *)
Lemma interleave_In (ts : list (list event)) (il : list event) :
  interleave ts il ->
  forall e, In e il <-> exists t, In t ts /\ In e t.
Proof.
  induction 1 as [|ts il H IH|ts1 e t ts2 il H IH]; intros x.
  - split; [intros [] | intros [t [[] _]]].
  - rewrite IH. split.
    + intros [t [Ht Hx]]. exists t. split; [now right | exact Hx].
    + intros [t [[<-|Ht] Hx]]; [destruct Hx|]. now exists t.
  - cbn [In]. rewrite IH. split.
    + intros [<-|[t' [Ht' Hx]]].
      * exists (e :: t). split; [apply in_elt | now left].
      * apply in_app_or in Ht'. destruct Ht' as [Ht'|[<-|Ht']].
        -- exists t'. split; [apply in_or_app; now left | exact Hx].
        -- exists (e :: t). split; [apply in_elt | now right].
        -- exists t'. split; [apply in_or_app; right; now right | exact Hx].
    + intros [t' [Ht' Hx]].
      apply in_app_or in Ht'. destruct Ht' as [Ht'|[<-|Ht']].
      * right. exists t'. split; [apply in_or_app; now left | exact Hx].
      * destruct Hx as [->|Hx]; [now left|]. right. exists t.
        split; [apply in_elt | exact Hx].
      * right. exists t'. split; [apply in_or_app; right; now right | exact Hx].
Qed.

(** Running the goroutines one after the other is one way to merge. *)
Lemma interleave_concat (ts : list (list event)) : interleave ts (List.concat ts).
Proof.
  induction ts as [|t ts IH]; [constructor|]. cbn [List.concat].
  induction t as [|e t IHt]; [now constructor|].
  apply (interleave_step [] e t ts). exact IHt.
Qed.

(** Every finished run can be observed. *)
Lemma observable_exists (st : St) :
  observable st (trace st ++ List.concat (spawned st)).
Proof. eexists. split; [apply interleave_concat | reflexivity]. Qed.

Lemma observable_In (st : St) (t : list event) :
  observable st t ->
  forall e, In e t <-> In e (trace st) \/ exists g, In g (spawned st) /\ In e g.
Proof.
  intros [il [Hil ->]] e. rewrite in_app_iff, (interleave_In _ _ Hil).
  reflexivity.
Qed.

(** ** [Sync] by phases *)

Lemma listings_eq (rs : RepoSync) (w : World) (fuel : nat) (st0 : St) :
  listings rs w fuel st0 =
  match load_remote rs w fuel
          (record (Log ("begin loading repos for " ++ org rs ++ " " ++ user rs))
             st0) with
  | None => None
  | Some (r, st1) => Some (tt, scanned rs w r st1)
  end.
Proof.
  unfold listings, bind. rewrite Run_eq. cbn [task description NewTask].
  destruct (load_remote rs w fuel _) as [[r st1]|]; [|reflexivity].
  destruct r as [err|]; rewrite Run_eq; cbn [task description NewTask];
    rewrite load_local_eq; unfold scanned, record; cbn;
    rewrite <- !app_assoc, ?string_app_assoc; reflexivity.
Qed.

Lemma reconcile_eq (rs : RepoSync) (w : World) (st : St) :
  (st <- get ;;
   let reposToArchive := Difference (currentRepos st) (allRepos st) in
   let reposToClone := Difference (allRepos st) (currentRepos st) in
   if (List.length reposToArchive + List.length reposToClone =? 0)%nat then
     emit (Log "nothing to do!") ;;
     ret None
   else
     emit (MkdirAll (archivedir rs) 493) ;;
     match mkdir_all w (archivedir rs) 493 with
     | Some err => ret (Some err)
     | None =>
         spawn_each (archive rs w) reposToArchive ;;
         spawn_each (clone rs w) reposToClone ;;
         ret None
     end) st = Some (reconciled rs w st).
Proof.
  unfold reconciled, bind at 1, get. cbv zeta.
  destruct (_ =? 0)%nat; [reflexivity|].
  unfold bind at 1, emit. destruct (mkdir_all w _ _); [reflexivity|].
  unfold bind.
  rewrite (spawn_each_eq (archive rs w) (archive_events rs w) (Run_archive rs w)).
  rewrite (spawn_each_eq (clone rs w) (clone_events rs w) (Run_clone rs w)).
  unfold ret, started. cbn. now rewrite <- app_assoc.
Qed.

Lemma Sync_eq (rs : RepoSync) (w : World) (fuel : nat) (st0 : St) :
  Sync rs w fuel st0 =
  match listings rs w fuel st0 with
  | None => None
  | Some (_, st) => Some (reconciled rs w st)
  end.
Proof.
  unfold Sync, listings. rewrite <- bind_assoc. unfold bind at 1.
  destruct (bind _ _ st0) as [[[] st]|]; [|reflexivity].
  apply reconcile_eq.
Qed.

Lemma load_remote_inv (rs : RepoSync) (w : World) (fuel : nat) (st st1 : St)
    (r : option error) :
  load_remote rs w fuel st = Some (r, st1) ->
  exists reqs ps, st1 = listed (remote_call rs) (remote_skip rs) reqs ps st.
Proof.
  destruct (String.eqb_spec (org rs) "") as [Ho|Ho];
    [destruct (String.eqb_spec (user rs) "") as [Hu|Hu]|].
  - unfold load_remote. rewrite Ho, Hu. cbn. intros H. injection H as <- <-.
    exists [], []. unfold listed. cbn. rewrite !app_nil_r, Nat.add_0_r.
    now destruct st.
  - rewrite load_remote_eq by tauto. intros H. apply pages_inv in H.
    destruct H as [reqs [ps [_ [_ ->]]]]. now exists reqs, ps.
  - rewrite load_remote_eq by tauto. intros H. apply pages_inv in H.
    destruct H as [reqs [ps [_ [_ ->]]]]. now exists reqs, ps.
Qed.

(** The listings start no goroutine and change nothing on disk. *)
Lemma listings_quiet (rs : RepoSync) (w : World) (fuel : nat) (st0 st : St) :
  listings rs w fuel st0 = Some (tt, st) ->
  spawned st = spawned st0
  /\ exists evs, trace st = trace st0 ++ evs
                 /\ forall e, In e evs -> mutation e = false.
Proof.
  rewrite listings_eq.
  destruct (load_remote rs w fuel _) as [[r st1]|] eqn:E; [|discriminate].
  intros H. injection H as <-. apply load_remote_inv in E.
  destruct E as [reqs [ps ->]]. split; [reflexivity|].
  cbn [scanned listed record trace]. rewrite <- !app_assoc.
  eexists. split; [reflexivity|]. intros e He.
  repeat (apply in_app_or in He; destruct He as [He|He]).
  - destruct He as [<-|[]]. reflexivity.
  - apply in_map_iff in He. destruct He as [page [<- _]]. reflexivity.
  - destruct He as [<-|[<-|[<-|[<-|[]]]]]; reflexivity.
Qed.

Lemma interleave_none (il : list event) : interleave [] il -> il = [].
Proof.
  intros H. destruct il as [|e il]; [reflexivity|].
  destruct (proj1 (interleave_In [] (e :: il) H e) (or_introl eq_refl))
    as [t [[] _]].
Qed.

(** ** The reconciler *)

(** C2. Whatever remote list and local list the listings leave, [Sync]
    starts (when the archive directory can be created) one archiving
    goroutine per element of [Difference local remote] and one cloning
    goroutine per element of [Difference remote local], and a name that is
    in both lists is in neither difference.  With local x, y and remote
    y, z: x is archived and z is cloned. *)
Theorem Sync_plans_differences (rs : RepoSync) (w : World) (fuel : nat)
    (st0 st : St) :
  listings rs w fuel st0 = Some (tt, st) ->
  mkdir_all w (archivedir rs) 493 = None ->
  let remote := allRepos st in
  let local := currentRepos st in
  (exists st',
     Sync rs w fuel st0 = Some (None, st')
     /\ spawned st' =
        spawned st ++
        map (archive_events rs w) (Difference local remote) ++
        map (clone_events rs w) (Difference remote local))
  /\ (forall r, In r local -> In r remote ->
        ~ In r (Difference local remote) /\ ~ In r (Difference remote local))
  /\ Difference ["x"; "y"] ["y"; "z"] = ["x"]
  /\ Difference ["y"; "z"] ["x"; "y"] = ["z"].
Proof.
  intros Hl Hmk remote local. split; [|split; [|split; reflexivity]].
  - rewrite Sync_eq, Hl. unfold reconciled. rewrite Hmk. fold remote local.
    destruct (_ =? 0)%nat eqn:E.
    + eexists. split; [reflexivity|]. apply Nat.eqb_eq in E.
      destruct (Difference local remote), (Difference remote local);
        try discriminate E.
      cbn. now rewrite app_nil_r.
    + eexists. split; reflexivity.
  - intros r Hloc Hrem. rewrite !Difference_In. tauto.
Qed.

(** C5. Whenever the two listings end with both differences empty,
    [Sync] logs "nothing to do!" as its last event and returns no error;
    it has started no goroutine, so what is observed is the trace of the
    main goroutine, and no event of the run creates a directory, renames
    or runs a command. *)
Theorem Sync_nothing_to_do (rs : RepoSync) (w : World) (fuel : nat) (st : St) :
  listings rs w fuel init = Some (tt, st) ->
  Difference (currentRepos st) (allRepos st) = [] ->
  Difference (allRepos st) (currentRepos st) = [] ->
  exists st',
    Sync rs w fuel init = Some (None, st')
    /\ trace st' = trace st ++ [Log "nothing to do!"]
    /\ spawned st' = []
    /\ (forall t, observable st' t -> t = trace st')
    /\ (forall e, In e (trace st') -> mutation e = false).
Proof.
  intros Hl Ha Hc. exists (record (Log "nothing to do!") st).
  destruct (listings_quiet rs w fuel init st Hl) as [Hsp [evs [Htr Hq]]].
  split; [|split; [reflexivity|split; [exact Hsp|split]]].
  - rewrite Sync_eq, Hl. unfold reconciled. now rewrite Ha, Hc.
  - intros t [il [Hil ->]]. cbn [spawned record] in Hil. rewrite Hsp in Hil.
    apply interleave_none in Hil. subst il. now rewrite app_nil_r.
  - intros e He. cbn [trace record] in He. rewrite Htr in He.
    cbn [trace init app] in He. apply in_app_or in He.
    destruct He as [He|[<-|[]]]; [now apply Hq | reflexivity].
Qed.

(** ** A failed listing *)

Lemma archive_events_begin (rs : RepoSync) (w : World) (r : string) :
  In (Log ("begin archiving " ++ r)) (archive_events rs w r)
  /\ (dryrun rs = false ->
      In (Rename (path_Join w (workdir rs) r) (path_Join w (archivedir rs) r))
        (archive_events rs w r)).
Proof.
  unfold archive_events. destruct (dryrun rs).
  - split; [now left | discriminate].
  - split; [now left | intros _; right; now left].
Qed.

Lemma reconciled_cases (rs : RepoSync) (w : World) (st : St) :
  let reposToArchive := Difference (currentRepos st) (allRepos st) in
  let reposToClone := Difference (allRepos st) (currentRepos st) in
  (reposToArchive ++ reposToClone = [] ->
   reconciled rs w st = (None, record (Log "nothing to do!") st))
  /\ (reposToArchive ++ reposToClone <> [] ->
      reconciled rs w st =
      match mkdir_all w (archivedir rs) 493 with
      | Some err => (Some err, record (MkdirAll (archivedir rs) 493) st)
      | None =>
          (None,
           started (map (archive_events rs w) reposToArchive ++
                    map (clone_events rs w) reposToClone)
             (record (MkdirAll (archivedir rs) 493) st))
      end).
Proof.
  intros a c. unfold reconciled. fold a c.
  destruct (_ =? 0)%nat eqn:E.
  - apply Nat.eqb_eq in E. split; [reflexivity|]. intros H. elim H.
    destruct a, c; try discriminate E. reflexivity.
  - apply Nat.eqb_neq in E. split; [|reflexivity]. intros H. elim E.
    now rewrite <- length_app, H.
Qed.

(** [Sync] after a listing that ended with an error. *)
Lemma Sync_after_listing_error (rs : RepoSync) (w : World) (fuel : nat)
    (err : error) (st1 : St) :
  load_remote rs w fuel
    (record (Log ("begin loading repos for " ++ org rs ++ " " ++ user rs)) init)
  = Some (Some err, st1) ->
  exists ret st',
    Sync rs w fuel init = Some (ret, st')
    /\ In (Log ("error loading repos for " ++ org rs ++ " " ++ user rs
                ++ ": " ++ err)) (trace st')
    /\ In (ReadDir (workdir rs)) (trace st')
    /\ allRepos st' = allRepos st1
    /\ currentRepos st' = checkouts w (workdir rs)
    /\ let reposToArchive := Difference (currentRepos st') (allRepos st') in
       let reposToClone := Difference (allRepos st') (currentRepos st') in
       (reposToArchive ++ reposToClone = [] ->
        ret = None /\ In (Log "nothing to do!") (trace st'))
       /\ (reposToArchive ++ reposToClone <> [] ->
           ret = mkdir_all w (archivedir rs) 493
           /\ In (MkdirAll (archivedir rs) 493) (trace st')
           /\ (ret = None ->
               spawned st' =
               map (archive_events rs w) reposToArchive ++
               map (clone_events rs w) reposToClone)).
Proof.
  intros H. rewrite Sync_eq, listings_eq, H.
  destruct (load_remote_inv rs w fuel _ _ _ H) as [reqs [ps E]].
  assert (currentRepos st1 = [] /\ spawned st1 = []) as [Hcur Hsp]
    by (rewrite E; split; reflexivity).
  set (st := scanned rs w (Some err) st1).
  assert (In (Log ("error loading repos for " ++ org rs ++ " " ++ user rs
                   ++ ": " ++ err)) (trace st)) as Herr
    by (apply in_or_app; right; now left).
  assert (In (ReadDir (workdir rs)) (trace st)) as Hrd
    by (apply in_or_app; right; right; right; now left).
  assert (currentRepos st = checkouts w (workdir rs)) as Hc
    by (cbn; now rewrite Hcur).
  destruct (reconciled_cases rs w st) as [Hnone Hsome].
  destruct (list_eq_dec string_dec
              (Difference (currentRepos st) (allRepos st) ++
               Difference (allRepos st) (currentRepos st)) []) as [Hd|Hd].
  - rewrite (Hnone Hd). eexists. eexists. split; [reflexivity|].
    cbn [trace record allRepos currentRepos].
    split; [apply in_or_app; now left|]. split; [apply in_or_app; now left|].
    split; [reflexivity|]. split; [exact Hc|]. split.
    + intros _. split; [reflexivity | apply in_or_app; right; now left].
    + intros Hne. now elim Hne.
  - rewrite (Hsome Hd). destruct (mkdir_all w (archivedir rs) 493) as [e|];
      (eexists; eexists; split; [reflexivity|]);
      cbn [trace record started allRepos currentRepos spawned];
      (split; [apply in_or_app; now left|]);
      (split; [apply in_or_app; now left|]);
      (split; [reflexivity|]); (split; [exact Hc|]); (split; [tauto|]);
      intros _; (split; [reflexivity|]);
      (split; [apply in_or_app; right; now left|]).
    + discriminate.
    + intros _. unfold st. cbn [scanned spawned]. now rewrite Hsp.
Qed.

(** C9. If the request for a later page fails after the pages [p :: ps]
    have been received, the names of those pages are the remote list:
    [Sync] logs the error and reconciles the working directory with
    them.  When the archive directory can be created, [Sync] returns no
    error, and every local checkout whose name is not among those names
    gets an archiving goroutine; its "begin archiving" line, and outside
    dry-run mode its rename, are in every observable trace. *)
Theorem Sync_partial_listing (rs : RepoSync) (w : World) (fuel : nat)
    (reqs : list Z) (p : list github.Repository)
    (ps : list (list github.Repository)) (err : error) :
  org rs <> "" \/ user rs <> "" ->
  served w (remote_call rs) 0 0 reqs (p :: ps) (Some err) ->
  List.length reqs <= fuel ->
  let partial := flat_map (names (remote_skip rs)) (p :: ps) in
  let local := checkouts w (workdir rs) in
  exists ret st',
    Sync rs w fuel init = Some (ret, st')
    /\ In (Log ("error loading repos for " ++ org rs ++ " " ++ user rs
                ++ ": " ++ err)) (trace st')
    /\ allRepos st' = partial
    /\ currentRepos st' = local
    /\ (mkdir_all w (archivedir rs) 493 = None ->
        ret = None
        /\ spawned st' =
           map (archive_events rs w) (Difference local partial) ++
           map (clone_events rs w) (Difference partial local)
        /\ forall r, In r local -> ~ In r partial ->
             In (archive_events rs w r) (spawned st')
             /\ forall t, observable st' t ->
                  In (Log ("begin archiving " ++ r)) t
                  /\ (dryrun rs = false ->
                      In (Rename (path_Join w (workdir rs) r)
                            (path_Join w (archivedir rs) r)) t)).
Proof.
  intros Hmode Hs Hfuel partial local.
  pose proof (pages_served w (remote_call rs) (remote_skip rs) 0 0 reqs
                (p :: ps) (Some err) Hs fuel
                (record (Log ("begin loading repos for " ++ org rs ++ " "
                              ++ user rs)) init) eq_refl Hfuel) as Hp.
  rewrite <- load_remote_eq in Hp by exact Hmode.
  destruct (Sync_after_listing_error rs w fuel err _ Hp)
    as [ret [st' [HS [Herr [_ [Hall [Hcur Hrec]]]]]]].
  cbn [listed allRepos record init app] in Hall. fold partial in Hall.
  fold local in Hcur.
  exists ret, st'. split; [exact HS|]. split; [exact Herr|].
  split; [exact Hall|]. split; [exact Hcur|].
  intros Hmk. rewrite Hall, Hcur in Hrec. cbv zeta in Hrec.
  destruct Hrec as [Hnone Hsome].
  destruct (list_eq_dec string_dec
              (Difference local partial ++ Difference partial local) [])
    as [Hd|Hd].
  - destruct (Hnone Hd) as [-> _]. split; [reflexivity|].
    apply app_eq_nil in Hd. destruct Hd as [Ha Hc].
    assert (forall r, In r local -> ~ In r partial -> False) as Hno.
    { intros r Hl Hnp.
      assert (In r (Difference local partial)) as Hin
        by (apply Difference_In; now split).
      rewrite Ha in Hin. destruct Hin. }
    split.
    + rewrite Ha, Hc. cbn [map app].
      rewrite Sync_eq, listings_eq, Hp in HS.
      destruct (reconciled_cases rs w
                  (scanned rs w (Some err)
                     (listed (remote_call rs) (remote_skip rs) reqs (p :: ps)
                        (record (Log ("begin loading repos for " ++ org rs
                                      ++ " " ++ user rs)) init))))
        as [Hn' _].
      cbn [scanned listed allRepos currentRepos record init app] in Hn'.
      fold partial local in Hn'. rewrite Ha, Hc in Hn'.
      rewrite (Hn' eq_refl) in HS. injection HS as <-. reflexivity.
    + intros r Hl Hnp. destruct (Hno r Hl Hnp).
  - destruct (Hsome Hd) as [Hret [_ Hsp]]. rewrite Hmk in Hret.
    split; [exact Hret|]. specialize (Hsp Hret). split; [exact Hsp|].
    intros r Hl Hnp.
    assert (In (archive_events rs w r) (spawned st')) as Hg.
    { rewrite Hsp. apply in_or_app. left. apply in_map.
      apply Difference_In. now split. }
    split; [exact Hg|]. intros t Hobs.
    destruct (archive_events_begin rs w r) as [Hb Hr].
    split; [|intros Hdry];
      apply (observable_In st' t Hobs); right; exists (archive_events rs w r);
      (split; [exact Hg|]); [exact Hb | now apply Hr].
Qed.

(** C1, as the code has it.  If a page request fails, the task runner
    logs "error loading repos for <org> <user>: <cause>" and [Sync] goes
    on: it reads the working directory and reconciles it with the names
    appended before the failure.  [Sync] then returns no error when there
    is nothing to do, and otherwise what creating the archive directory
    returns, after which the goroutines are started. *)
Theorem Sync_listing_error_logged (rs : RepoSync) (w : World) (fuel : nat)
    (err : error) (st1 : St) :
  load_remote rs w fuel
    (record (Log ("begin loading repos for " ++ org rs ++ " " ++ user rs)) init)
  = Some (Some err, st1) ->
  exists ret st',
    Sync rs w fuel init = Some (ret, st')
    /\ In (Log ("error loading repos for " ++ org rs ++ " " ++ user rs
                ++ ": " ++ err)) (trace st')
    /\ In (ReadDir (workdir rs)) (trace st')
    /\ allRepos st' = allRepos st1
    /\ currentRepos st' = checkouts w (workdir rs)
    /\ let reposToArchive := Difference (currentRepos st') (allRepos st') in
       let reposToClone := Difference (allRepos st') (currentRepos st') in
       (reposToArchive ++ reposToClone = [] ->
        ret = None /\ In (Log "nothing to do!") (trace st'))
       /\ (reposToArchive ++ reposToClone <> [] ->
           ret = mkdir_all w (archivedir rs) 493
           /\ In (MkdirAll (archivedir rs) 493) (trace st')
           /\ (ret = None ->
               spawned st' =
               map (archive_events rs w) reposToArchive ++
               map (clone_events rs w) reposToClone)).
Proof. exact (Sync_after_listing_error rs w fuel err st1). Qed.

(** C1 as stated fails.  With the organization unreachable and the
    checkouts a and x on disk, the only page request fails, and yet
    [Sync] returns no error, creates the archive directory and moves both
    checkouts there. *)
Lemma Sync_listing_error_not_fatal :
  (exists st1,
     load_remote (acme false) offline_world 1
       (record (Log "begin loading repos for acme me") init)
     = Some (Some "dial tcp: i/o timeout", st1))
  /\ (exists st',
        Sync (acme false) offline_world 1 init = Some (None, st')
        /\ In (MkdirAll "/old" 493) (trace st')
        /\ spawned st' =
           [[Log "begin archiving a"; Rename "/w/a" "/old/a";
             Log "finished archiving a"];
            [Log "begin archiving x"; Rename "/w/x" "/old/x";
             Log "finished archiving x"]])
  /\ ~ (forall err st1,
          load_remote (acme false) offline_world 1
            (record (Log "begin loading repos for acme me") init)
          = Some (Some err, st1) ->
          exists st',
            Sync (acme false) offline_world 1 init = Some (Some err, st')
            /\ spawned st' = []
            /\ forall e, In e (trace st') -> mutation e = false).
Proof.
  split; [eexists; reflexivity|]. split.
  - eexists. split; [lazy; reflexivity|]. split; [|reflexivity].
    cbn. do 6 right. now left.
  - intros H. destruct (H _ _ eq_refl) as [st' [HS _]].
    vm_compute in HS. discriminate HS.
Qed.

(** ** Dry-run mode *)

Lemma dryrun_events (rs : RepoSync) (w : World) (r : string) :
  dryrun rs = true ->
  archive_events rs w r =
    [Log ("begin archiving " ++ r); Log ("finished archiving " ++ r)]
  /\ clone_events rs w r =
    [Log ("begin cloning " ++ r); Log ("finished cloning " ++ r)].
Proof. unfold archive_events, clone_events. now intros ->. Qed.

(** C3, on the code.  In dry-run mode with something to archive or to
    clone, the goroutines only log: each planned operation gives its
    "begin" and "finished" lines and no rename or command.  But before
    they start, [Sync] calls [os.MkdirAll] on the archive directory, in
    dry-run mode as in any other: a directory is created. *)
Theorem Sync_dryrun_creates_archivedir (rs : RepoSync) (w : World)
    (fuel : nat) (st : St) :
  dryrun rs = true ->
  listings rs w fuel init = Some (tt, st) ->
  Difference (currentRepos st) (allRepos st) ++
  Difference (allRepos st) (currentRepos st) <> [] ->
  exists ret st',
    Sync rs w fuel init = Some (ret, st')
    /\ ret = mkdir_all w (archivedir rs) 493
    /\ trace st' = trace st ++ [MkdirAll (archivedir rs) 493]
    /\ mutation (MkdirAll (archivedir rs) 493) = true
    /\ (forall g e, In g (spawned st') -> In e g -> mutation e = false)
    /\ (ret = None ->
        spawned st' =
        map (fun r => [Log ("begin archiving " ++ r);
                       Log ("finished archiving " ++ r)])
          (Difference (currentRepos st) (allRepos st)) ++
        map (fun r => [Log ("begin cloning " ++ r);
                       Log ("finished cloning " ++ r)])
          (Difference (allRepos st) (currentRepos st))).
Proof.
  intros Hdry Hl Hne.
  destruct (listings_quiet rs w fuel init st Hl) as [Hsp _].
  cbn [spawned init] in Hsp.
  assert (map (archive_events rs w) (Difference (currentRepos st) (allRepos st))
          = map (fun r => [Log ("begin archiving " ++ r);
                           Log ("finished archiving " ++ r)])
              (Difference (currentRepos st) (allRepos st))) as Ea
    by (apply map_ext; intros r; apply (dryrun_events rs w r Hdry)).
  assert (map (clone_events rs w) (Difference (allRepos st) (currentRepos st))
          = map (fun r => [Log ("begin cloning " ++ r);
                           Log ("finished cloning " ++ r)])
              (Difference (allRepos st) (currentRepos st))) as Ec
    by (apply map_ext; intros r; apply (dryrun_events rs w r Hdry)).
  rewrite Sync_eq, Hl.
  destruct (reconciled_cases rs w st) as [_ Hsome]. rewrite (Hsome Hne).
  destruct (mkdir_all w (archivedir rs) 493) as [e|];
    (eexists; eexists; split; [reflexivity|]);
    (split; [reflexivity|]); (split; [reflexivity|]); (split; [reflexivity|]);
    cbn [spawned started record]; rewrite Hsp; cbn [app].
  - split; [intros g e' []|discriminate].
  - rewrite Ea, Ec. split; [|reflexivity].
    intros g e Hg He. apply in_app_or in Hg.
    destruct Hg as [Hg|Hg]; apply in_map_iff in Hg;
      destruct Hg as [r [<- _]]; destruct He as [<-|[<-|[]]]; reflexivity.
Qed.

(** ** The statements at concrete runs *)

Lemma Sync_listing_error_logged_witness :
  (exists st1,
     load_remote (acme false) offline_world 1
       (record (Log "begin loading repos for acme me") init)
     = Some (Some "dial tcp: i/o timeout", st1))
  /\ exists ret st',
       Sync (acme false) offline_world 1 init = Some (ret, st')
       /\ In (Log "error loading repos for acme me: dial tcp: i/o timeout")
            (trace st')
       /\ currentRepos st' = ["a"; "x"].
Proof.
  split; [eexists; reflexivity|].
  destruct (Sync_listing_error_logged (acme false) offline_world 1
              "dial tcp: i/o timeout" _ eq_refl)
    as [ret [st' [HS [Herr [_ [_ [Hcur _]]]]]]].
  exists ret, st'. split; [exact HS|]. split; [exact Herr | exact Hcur].
Defined.

Lemma Sync_plans_differences_witness :
  listings (acme false) acme_world 2 init = Some (tt, acme_listed)
  /\ allRepos acme_listed = ["a"; "b"; "c"]
  /\ currentRepos acme_listed = ["a"; "x"]
  /\ mkdir_all acme_world "/old" 493 = None
  /\ exists st',
       Sync (acme false) acme_world 2 init = Some (None, st')
       /\ spawned st' =
          [[Log "begin archiving x"; Rename "/w/x" "/old/x";
            Log "finished archiving x"];
           [Log "begin cloning b";
            Exec "git" ["clone"; "git@github.com:acme/b"; "/w/b"];
            Log "finished cloning b"];
           [Log "begin cloning c";
            Exec "git" ["clone"; "git@github.com:acme/c"; "/w/c"];
            Log "finished cloning c"]].
Proof.
  assert (listings (acme false) acme_world 2 init = Some (tt, acme_listed))
    as Hl by (vm_compute; reflexivity).
  split; [exact Hl|]. split; [reflexivity|]. split; [reflexivity|].
  split; [reflexivity|].
  destruct (Sync_plans_differences (acme false) acme_world 2 init acme_listed
              Hl eq_refl) as [[st' [HS Hsp]] _].
  exists st'. split; [exact HS | exact Hsp].
Defined.

Lemma Sync_dryrun_creates_archivedir_witness :
  dryrun (acme true) = true
  /\ listings (acme true) acme_world 2 init = Some (tt, acme_listed)
  /\ exists ret st',
       Sync (acme true) acme_world 2 init = Some (ret, st')
       /\ In (MkdirAll "/old" 493) (trace st')
       /\ spawned st' =
          [[Log "begin archiving x"; Log "finished archiving x"];
           [Log "begin cloning b"; Log "finished cloning b"];
           [Log "begin cloning c"; Log "finished cloning c"]].
Proof.
  assert (listings (acme true) acme_world 2 init = Some (tt, acme_listed))
    as Hl by (vm_compute; reflexivity).
  split; [reflexivity|]. split; [exact Hl|].
  destruct (Sync_dryrun_creates_archivedir (acme true) acme_world 2
              acme_listed eq_refl Hl)
    as [ret [st' [HS [Hret [Htr [_ [_ Hsp]]]]]]].
  - vm_compute. discriminate.
  - exists ret, st'. split; [exact HS|]. split.
    + rewrite Htr. apply in_or_app. right. now left.
    + apply Hsp. exact Hret.
Defined.

Lemma Sync_nothing_to_do_witness :
  listings (acme false) synced_world 2 init = Some (tt, synced_listed)
  /\ exists st',
       Sync (acme false) synced_world 2 init = Some (None, st')
       /\ trace st' =
          [Log "begin loading repos for acme me";
           Request (call_org (acme false) 0);
           Request (call_org (acme false) 2);
           Log "finished loading repos for acme me";
           Log "begin loading repos already cloned in /w";
           ReadDir "/w";
           Log "finished loading repos already cloned in /w";
           Log "nothing to do!"]
       /\ spawned st' = [].
Proof.
  assert (listings (acme false) synced_world 2 init = Some (tt, synced_listed))
    as Hl by (vm_compute; reflexivity).
  split; [exact Hl|].
  destruct (Sync_nothing_to_do (acme false) synced_world 2 synced_listed
              Hl eq_refl eq_refl) as [st' [HS [Htr [Hsp _]]]].
  exists st'. split; [exact HS|]. split; [exact Htr | exact Hsp].
Defined.

Lemma load_remote_accumulates_witness :
  (org (config "" "me" false false) <> ""
   \/ user (config "" "me" false false) <> "")
  /\ load_remote (config "" "me" false false) acme_world 2 init =
     Some (None,
           {| trace := [Request (call_user (config "" "me" false false) 0);
                        Request (call_user (config "" "me" false false) 2)];
              calls := 2;
              allRepos := ["a"; "c"];
              currentRepos := [];
              spawned := [] |}).
Proof.
  assert (org (config "" "me" false false) <> ""
          \/ user (config "" "me" false false) <> "") as Hmode
    by (right; discriminate).
  split; [exact Hmode|].
  destruct (load_remote_accumulates (config "" "me" false false) acme_world 2
              init
              {| trace := [Request (call_user (config "" "me" false false) 0);
                           Request (call_user (config "" "me" false false) 2)];
                 calls := 2;
                 allRepos := ["a"; "c"];
                 currentRepos := [];
                 spawned := [] |} Hmode) as [[_ Hback] _].
  apply Hback.
  exists [0; 2]%Z, [[named "a"; fork_of "b"; nameless]; [named "c"]].
  split; [|split; [cbn; lia | split; reflexivity]].
  apply served_next with {| github.NextPage := 2 |};
    [reflexivity | discriminate |].
  apply served_last with {| github.NextPage := 0 |}; reflexivity.
Defined.

Lemma Sync_partial_listing_witness :
  served flaky_world (remote_call (acme false)) 0 0 [0; 2]%Z [[named "a"]]
    (Some "502 Bad Gateway")
  /\ exists ret st',
       Sync (acme false) flaky_world 2 init = Some (ret, st')
       /\ allRepos st' = ["a"]
       /\ currentRepos st' = ["a"; "c"]
       /\ In [Log "begin archiving c"; Rename "/w/c" "/old/c";
              Log "finished archiving c"] (spawned st').
Proof.
  assert (served flaky_world (remote_call (acme false)) 0 0 [0; 2]%Z
            [[named "a"]] (Some "502 Bad Gateway")) as Hs.
  { apply served_next with {| github.NextPage := 2 |};
      [reflexivity | discriminate |].
    apply served_error. reflexivity. }
  split; [exact Hs|].
  assert (org (acme false) <> "" \/ user (acme false) <> "") as Hmode
    by (left; discriminate).
  destruct (Sync_partial_listing (acme false) flaky_world 2 [0; 2]%Z
              [named "a"] [] "502 Bad Gateway" Hmode Hs (le_n 2))
    as [ret [st' [HS [_ [Hall [Hcur Hmk]]]]]].
  exists ret, st'. split; [exact HS|]. split; [exact Hall|].
  split; [exact Hcur|].
  destruct (Hmk eq_refl) as [_ [_ Harch]].
  destruct (Harch "c") as [Hin _].
  - right. now left.
  - intros [H|[]]. discriminate H.
  - exact Hin.
Defined.

(** ** More on the set utilities *)

Lemma Difference_nil_r (a : list string) : Difference a [] = a.
Proof.
  rewrite Difference_filter. induction a as [|x a IH]; [reflexivity|].
  cbn [filter Contains negb]. now f_equal.
Qed.

(** X1. [Difference] works through [a] piece by piece and through [b]
    piece by piece: the difference of an append is the append of the
    differences, removing [b1 ++ b2] is removing [b1] and then [b2], and
    removing [b] twice is removing it once. *)
Theorem Difference_app_laws (a1 a2 a b b1 b2 : list string) :
  Difference (a1 ++ a2) b = Difference a1 b ++ Difference a2 b
  /\ Difference a (b1 ++ b2) = Difference (Difference a b1) b2
  /\ Difference (Difference a b) b = Difference a b.
Proof.
  split; [|split].
  - rewrite !Difference_filter. apply filter_app.
  - rewrite !Difference_filter. induction a as [|x a IH]; [reflexivity|].
    cbn [filter].
    assert (Contains (b1 ++ b2) x = Contains b1 x || Contains b2 x) as E.
    { clear. induction b1 as [|y b1 IH]; [reflexivity|]. cbn [app Contains].
      destruct (String.eqb y x); [reflexivity | exact IH]. }
    rewrite E. destruct (Contains b1 x); cbn [negb orb filter]; [exact IH|].
    destruct (Contains b2 x); cbn [negb]; [exact IH | now f_equal].
  - rewrite !Difference_filter. induction a as [|x a IH]; [reflexivity|].
    cbn [filter]. destruct (Contains b x) eqn:E; cbn [negb]; [exact IH|].
    cbn [filter]. rewrite E. cbn [negb]. now f_equal.
Qed.

(** X2. [Difference a b] is empty exactly when every element of [a] is in
    [b]; it depends on [b] only through the elements of [b], not their
    order or number; it is never longer than [a]; and no string is both
    in [Difference a b] and in [Difference b a]. *)
Theorem Difference_set_laws (a b : list string) :
  (Difference a b = [] <-> forall s, In s a -> In s b)
  /\ (forall b', (forall s, In s b <-> In s b') ->
        Difference a b = Difference a b')
  /\ List.length (Difference a b) <= List.length a
  /\ (forall s, In s (Difference a b) -> ~ In s (Difference b a)).
Proof.
  split; [apply Difference_nil_iff|]. split; [|split].
  - intros b' Hsame. rewrite !Difference_filter. apply filter_ext.
    intros s. f_equal.
    destruct (Contains b s) eqn:E, (Contains b' s) eqn:E'; try reflexivity.
    + apply Contains_In, Hsame, Contains_In in E. congruence.
    + apply Contains_In, Hsame, Contains_In in E'. congruence.
  - rewrite Difference_filter. apply filter_length_le.
  - intros s H H'. apply Difference_In in H, H'. tauto.
Qed.

(** ** More on [Sync] and [main] *)

Lemma Sync_run (rs : RepoSync) (w : World) (fuel : nat) (st0 st : St) :
  listings rs w fuel st0 = Some (tt, st) ->
  Sync rs w fuel st0 = Some (reconciled rs w st).
Proof. intros H. now rewrite Sync_eq, H. Qed.

(** What the listings leave when [Sync] starts from [init]. *)
Lemma listings_init (rs : RepoSync) (w : World) (fuel : nat) (st : St) :
  listings rs w fuel init = Some (tt, st) ->
  currentRepos st = checkouts w (workdir rs)
  /\ spawned st = []
  /\ forall e, In e (trace st) -> mutation e = false.
Proof.
  intros H. destruct (listings_quiet rs w fuel init st H) as [Hsp [evs [Htr Hq]]].
  split; [|split; [exact Hsp | intros e He; rewrite Htr in He; now apply Hq]].
  rewrite listings_eq in H.
  destruct (load_remote rs w fuel _) as [[r st1]|] eqn:E; [|discriminate].
  injection H as <-. apply load_remote_inv in E. destruct E as [reqs [ps ->]].
  reflexivity.
Qed.

Lemma archive_events_mutation (rs : RepoSync) (w : World) (r : string)
    (e : event) :
  In e (archive_events rs w r) -> mutation e = true ->
  dryrun rs = false
  /\ e = Rename (path_Join w (workdir rs) r) (path_Join w (archivedir rs) r).
Proof.
  unfold archive_events. destruct (dryrun rs).
  - intros [<-|[<-|[]]]; discriminate.
  - intros [<-|[<-|[<-|[]]]]; try discriminate. now split.
Qed.

Lemma clone_events_mutation (rs : RepoSync) (w : World) (r : string)
    (e : event) :
  In e (clone_events rs w r) -> mutation e = true ->
  dryrun rs = false
  /\ e = Exec "git" ["clone";
                     ("git@github.com:" ++ account rs ++ "/" ++ r)%string;
                     path_Join w (workdir rs) r].
Proof.
  unfold clone_events. destruct (dryrun rs).
  - intros [<-|[<-|[]]]; discriminate.
  - intros [<-|[<-|[<-|[]]]]; try discriminate. now split.
Qed.

(** X3. When the version is asked for, or a required setting is missing
    (user and organization both empty, or no directory, archive
    directory or token), [main] does one thing and stops: it prints the
    version and exits with status 0, or logs which setting is missing
    and exits with status 1.  Nothing is requested, read, created, moved
    or cloned. *)
Theorem main_startup_exit (Version : string) (fl : Flags) (w : World)
    (fuel : nat) (st : St) :
  flag_version fl = true
  \/ (flag_user fl = "" /\ flag_org fl = "")
  \/ flag_dir fl = "" \/ flag_archivedir fl = "" \/ flag_token fl = "" ->
  exists code e,
    main Version fl w fuel st = Some (code, record e st)
    /\ (flag_version fl = true ->
        code = 0%Z /\ e = Stdout (Version ++ String "010"%char ""))
    /\ (flag_version fl = false ->
        code = 1%Z
        /\ exists msg,
             e = Log msg
             /\ In msg ["must provide user or org"; "must provide dir";
                        "must provide archivedir"; "must provide token"]).
Proof.
  intros H. unfold main. destruct (flag_version fl).
  - eexists. eexists. split; [reflexivity|]. split; [now split | discriminate].
  - destruct ((flag_user fl =? "") && (flag_org fl =? "")) eqn:Euo;
      [|destruct (flag_dir fl =? "") eqn:Ed;
        [|destruct (flag_archivedir fl =? "") eqn:Ea;
          [|destruct (flag_token fl =? "") eqn:Et]]].
    1-4: eexists; eexists; (split; [reflexivity|]);
      (split; [discriminate|]); intros _; (split; [reflexivity|]);
      eexists; (split; [reflexivity|]); cbn; tauto.
    exfalso. apply andb_false_iff in Euo.
    rewrite !String.eqb_neq in *.
    destruct H as [H|[[Hu Ho]|[H|[H|H]]]]; try discriminate; tauto.
Qed.

(** X4. With the required settings given, [main] runs [Sync], and once
    the listings have ended its exit status is 1 exactly when there is
    something to archive or clone and the archive directory cannot be
    created; the error of [os.MkdirAll] is then the last line logged and
    no goroutine has been started.  Otherwise the exit status is 0 (so
    also after a listing that failed). *)
Theorem main_exit_status (Version : string) (fl : Flags) (w : World)
    (fuel : nat) (st : St) :
  flag_version fl = false ->
  flag_user fl <> "" \/ flag_org fl <> "" ->
  flag_dir fl <> "" -> flag_archivedir fl <> "" -> flag_token fl <> "" ->
  listings (RepoSync_of fl) w fuel init = Some (tt, st) ->
  exists code st',
    main Version fl w fuel init = Some (code, st')
    /\ (code = 1%Z <->
        plan st <> [] /\ mkdir_all w (flag_archivedir fl) 493 <> None)
    /\ (code = 0%Z <->
        plan st = [] \/ mkdir_all w (flag_archivedir fl) 493 = None)
    /\ (forall err, plan st <> [] ->
          mkdir_all w (flag_archivedir fl) 493 = Some err ->
          trace st' = trace st ++ [MkdirAll (flag_archivedir fl) 493; Log err]
          /\ spawned st' = []).
Proof.
  intros Hv Huo Hd Ha Ht Hl.
  assert ((flag_user fl =? "") && (flag_org fl =? "") = false) as Euo.
  { apply andb_false_iff. rewrite !String.eqb_neq. exact Huo. }
  apply String.eqb_neq in Hd, Ha, Ht.
  destruct (listings_init _ _ _ _ Hl) as [_ [Hsp _]].
  unfold main. rewrite Hv, Euo, Hd, Ha, Ht. unfold bind.
  rewrite (Sync_run _ _ _ _ _ Hl).
  destruct (reconciled_cases (RepoSync_of fl) w st) as [Hnone Hsome].
  fold (plan st) in Hnone, Hsome. cbn [archivedir RepoSync_of] in Hsome.
  destruct (list_eq_dec string_dec (plan st) []) as [Hp|Hp].
  - rewrite (Hnone Hp). eexists. eexists. split; [reflexivity|].
    split; [split; [discriminate | tauto]|].
    split; [split; [tauto | reflexivity]|]. tauto.
  - rewrite (Hsome Hp).
    destruct (mkdir_all w (flag_archivedir fl) 493) as [e|];
      (eexists; eexists; split; [reflexivity|]).
    + split; [split; [intros _; split; [exact Hp | discriminate] | reflexivity]|].
      split; [split; [discriminate | intros [H|H]; [tauto | discriminate]]|].
      intros err _ H. injection H as <-.
      cbn. rewrite <- app_assoc. now split.
    + split; [split; [discriminate | intros [_ H]; now elim H]|].
      split; [split; [now right | reflexivity]|]. discriminate.
Qed.

(** X5. When there is something to archive or clone and the archive
    directory cannot be created, [Sync] returns that error right after
    the call to [os.MkdirAll]: no goroutine is started, and in what is
    observed nothing is renamed and no command is run. *)
Theorem Sync_mkdir_failure (rs : RepoSync) (w : World) (fuel : nat) (st : St)
    (err : error) :
  listings rs w fuel init = Some (tt, st) ->
  plan st <> [] ->
  mkdir_all w (archivedir rs) 493 = Some err ->
  exists st',
    Sync rs w fuel init = Some (Some err, st')
    /\ trace st' = trace st ++ [MkdirAll (archivedir rs) 493]
    /\ spawned st' = []
    /\ forall t e, observable st' t -> In e t -> mutation e = true ->
         e = MkdirAll (archivedir rs) 493.
Proof.
  intros Hl Hp Hmk. destruct (listings_init _ _ _ _ Hl) as [_ [Hsp Hq]].
  rewrite (Sync_run _ _ _ _ _ Hl).
  destruct (reconciled_cases rs w st) as [_ Hsome]. rewrite (Hsome Hp), Hmk.
  eexists. split; [reflexivity|]. split; [reflexivity|]. split; [exact Hsp|].
  intros t e [il [Hil ->]] He Hm. cbn [spawned record] in Hil.
  rewrite Hsp in Hil. apply interleave_none in Hil. subst il.
  rewrite app_nil_r in He. cbn [trace record] in He.
  apply in_app_or in He. destruct He as [He|[<-|[]]]; [|reflexivity].
  rewrite (Hq e He) in Hm. discriminate Hm.
Qed.

(** X6. Outside dry-run mode, once the archive directory exists, [Sync]
    returns no error whatever the renames and the clones return.  A
    rename that fails is logged by its own goroutine as
    "error archiving <r>: <cause>", a clone that fails as
    "error cloning <r>: <cause> from <output of git>"; there is one
    goroutine per planned operation, failed or not. *)
Theorem Sync_task_failures_logged (rs : RepoSync) (w : World) (fuel : nat)
    (st : St) :
  listings rs w fuel init = Some (tt, st) ->
  mkdir_all w (archivedir rs) 493 = None ->
  dryrun rs = false ->
  exists st',
    Sync rs w fuel init = Some (None, st')
    /\ List.length (spawned st') = List.length (plan st)
    /\ (forall r cause,
          In r (Difference (currentRepos st) (allRepos st)) ->
          rename w (path_Join w (workdir rs) r) (path_Join w (archivedir rs) r)
          = Some cause ->
          In [Log ("begin archiving " ++ r);
              Rename (path_Join w (workdir rs) r)
                (path_Join w (archivedir rs) r);
              Log ("error archiving " ++ r ++ ": " ++ cause)]
            (spawned st'))
    /\ (forall r output cause,
          In r (Difference (allRepos st) (currentRepos st)) ->
          combined_output w "git"
            ["clone"; ("git@github.com:" ++ account rs ++ "/" ++ r)%string;
             path_Join w (workdir rs) r] = (output, Some cause) ->
          In [Log ("begin cloning " ++ r);
              Exec "git"
                ["clone"; ("git@github.com:" ++ account rs ++ "/" ++ r)%string;
                 path_Join w (workdir rs) r];
              Log ("error cloning " ++ r ++ ": " ++ cause ++ " from "
                   ++ output)]
            (spawned st')).
Proof.
  intros Hl Hmk Hdry. destruct (listings_init _ _ _ _ Hl) as [_ [Hsp _]].
  rewrite (Sync_run _ _ _ _ _ Hl).
  assert (exists st',
            reconciled rs w st = (None, st')
            /\ spawned st' =
               map (archive_events rs w)
                 (Difference (currentRepos st) (allRepos st)) ++
               map (clone_events rs w)
                 (Difference (allRepos st) (currentRepos st)))
    as [st' [-> Hs]].
  { destruct (reconciled_cases rs w st) as [Hnone Hsome].
    fold (plan st) in Hnone, Hsome.
    destruct (list_eq_dec string_dec (plan st) []) as [Hp|Hp].
    - rewrite (Hnone Hp). eexists. split; [reflexivity|].
      unfold plan in Hp. apply app_eq_nil in Hp. destruct Hp as [-> ->].
      exact Hsp.
    - rewrite (Hsome Hp), Hmk. eexists. split; [reflexivity|].
      cbn [spawned started record]. now rewrite Hsp. }
  exists st'. split; [reflexivity|]. rewrite Hs.
  split; [unfold plan; now rewrite !length_app, !length_map|]. split.
  - intros r cause Hr Hren. apply in_or_app. left.
    apply in_map_iff. exists r. split; [|exact Hr].
    unfold archive_events. now rewrite Hdry, Hren.
  - intros r output cause Hr Hout. apply in_or_app. right.
    apply in_map_iff. exists r. split; [|exact Hr].
    unfold clone_events. now rewrite Hdry, Hout.
Qed.

(** X7. Whatever the world answers, the only things a run of [Sync]
    changes on disk are these: it creates the archive directory; it
    renames [<workdir>/<r>] to [<archivedir>/<r>] for names [r] that the
    local listing kept (directories not starting with a dot) and that
    are not in the remote list; it runs [git clone] into [<workdir>/<r>]
    for names [r] of the remote list that the local listing did not
    keep.  Renames and clones happen outside dry-run mode only. *)
Theorem Sync_changes_only_planned (rs : RepoSync) (w : World) (fuel : nat)
    (st : St) :
  listings rs w fuel init = Some (tt, st) ->
  currentRepos st = checkouts w (workdir rs)
  /\ forall ret st' t e,
       Sync rs w fuel init = Some (ret, st') ->
       observable st' t -> In e t -> mutation e = true ->
       e = MkdirAll (archivedir rs) 493
       \/ (dryrun rs = false
           /\ exists r,
                In r (checkouts w (workdir rs)) /\ ~ In r (allRepos st)
                /\ e = Rename (path_Join w (workdir rs) r)
                         (path_Join w (archivedir rs) r))
       \/ (dryrun rs = false
           /\ exists r,
                In r (allRepos st) /\ ~ In r (checkouts w (workdir rs))
                /\ e = Exec "git"
                         ["clone";
                          ("git@github.com:" ++ account rs ++ "/" ++ r)%string;
                          path_Join w (workdir rs) r]).
Proof.
  intros Hl. destruct (listings_init _ _ _ _ Hl) as [Hcur [Hsp Hq]].
  split; [exact Hcur|]. intros ret st' t e HS Hobs He Hm.
  rewrite (Sync_run _ _ _ _ _ Hl) in HS. rewrite <- Hcur.
  apply (observable_In st' t Hobs) in He. unfold reconciled in HS.
  destruct (_ =? 0)%nat;
    [|destruct (mkdir_all w (archivedir rs) 493)]; injection HS as <- <-;
    cbn [trace spawned record started] in He; rewrite Hsp in He.
  - destruct He as [He|[g [[] _]]]. apply in_app_or in He.
    destruct He as [He|[<-|[]]]; [|discriminate Hm].
    rewrite (Hq e He) in Hm. discriminate Hm.
  - destruct He as [He|[g [[] _]]]. apply in_app_or in He.
    destruct He as [He|[<-|[]]]; [|now left].
    rewrite (Hq e He) in Hm. discriminate Hm.
  - destruct He as [He|[g [Hg He]]].
    + apply in_app_or in He. destruct He as [He|[<-|[]]]; [|now left].
      rewrite (Hq e He) in Hm. discriminate Hm.
    + cbn [app] in Hg. apply in_app_or in Hg.
      destruct Hg as [Hg|Hg]; apply in_map_iff in Hg;
        destruct Hg as [r [<- Hr]]; apply Difference_In in Hr.
      * destruct (archive_events_mutation rs w r e He Hm) as [Hd ->].
        right. left. split; [exact Hd|]. now exists r.
      * destruct (clone_events_mutation rs w r e He Hm) as [Hd ->].
        right. right. split; [exact Hd|]. now exists r.
Qed.

(** X8. After the listings, [Sync] does nothing exactly when the local
    and the remote list have the same names, in any order and number: it
    then ends on the line "nothing to do!".  As soon as one name is in
    one list only, its next step is the call to [os.MkdirAll]. *)
Theorem Sync_acts_iff_names_differ (rs : RepoSync) (w : World) (fuel : nat)
    (st : St) :
  listings rs w fuel init = Some (tt, st) ->
  exists ret st',
    Sync rs w fuel init = Some (ret, st')
    /\ ((forall r, In r (currentRepos st) <-> In r (allRepos st)) ->
        ret = None /\ st' = record (Log "nothing to do!") st)
    /\ ((exists r, ~ (In r (currentRepos st) <-> In r (allRepos st))) ->
        ret = mkdir_all w (archivedir rs) 493
        /\ trace st' = trace st ++ [MkdirAll (archivedir rs) 493])
    /\ ((forall r, In r (currentRepos st) <-> In r (allRepos st))
        \/ exists r, ~ (In r (currentRepos st) <-> In r (allRepos st))).
Proof.
  intros Hl. rewrite (Sync_run _ _ _ _ _ Hl).
  destruct (reconciled_cases rs w st) as [Hnone Hsome].
  fold (plan st) in Hnone, Hsome.
  assert (plan st = [] <-> forall r, In r (currentRepos st) <-> In r (allRepos st))
    as Hsame.
  { unfold plan. split.
    - intros H. apply app_eq_nil in H. destruct H as [Ha Hc].
      apply Difference_nil_iff in Ha, Hc. intros r. split; [apply Ha | apply Hc].
    - intros H.
      assert (Difference (currentRepos st) (allRepos st) = []) as ->
        by (apply Difference_nil_iff; intros r; apply H).
      apply Difference_nil_iff. intros r. apply H. }
  destruct (list_eq_dec string_dec (plan st) []) as [Hp|Hp].
  - rewrite (Hnone Hp). eexists. eexists. split; [reflexivity|].
    split; [now split|]. split; [|left; now apply Hsame].
    intros [r Hr]. elim Hr. now apply Hsame.
  - rewrite (Hsome Hp).
    assert (exists r, ~ (In r (currentRepos st) <-> In r (allRepos st))) as Hex.
    { unfold plan in Hp.
      destruct (Difference (currentRepos st) (allRepos st)) as [|r l] eqn:Ea.
      - destruct (Difference (allRepos st) (currentRepos st)) as [|r l] eqn:Ec;
          [now elim Hp|].
        exists r. assert (In r (Difference (allRepos st) (currentRepos st)))
          as Hin by (rewrite Ec; now left).
        apply Difference_In in Hin. tauto.
      - exists r. assert (In r (Difference (currentRepos st) (allRepos st)))
          as Hin by (rewrite Ea; now left).
        apply Difference_In in Hin. tauto. }
    destruct (mkdir_all w (archivedir rs) 493) as [e|];
      (eexists; eexists; split; [reflexivity|]);
      (split; [intros H; elim Hp; now apply Hsame|]);
      (split; [|right; exact Hex]); intros _; split; reflexivity.
Qed.

(** ** Pagination without end, and an empty remote list *)

Lemma pages_endless (w : World) (call : Z -> request)
    (skip : github.Repository -> bool) :
  (forall n page, exists repos resp,
      api w n (call page) = inl (repos, resp) /\ github.NextPage resp <> 0%Z) ->
  forall fuel page st, pages fuel w call skip page st = None.
Proof.
  intros Hmore. induction fuel as [|fuel IH]; intros page st; [reflexivity|].
  rewrite pages_step.
  destruct (Hmore (calls st) page) as [repos [resp [-> Hnext]]].
  apply Z.eqb_neq in Hnext. rewrite Hnext. apply IH.
Qed.

(** X9. The page loop has no bound of its own: if every response names
    a next page, the remote listing never ends and neither do [Sync] and
    [main]; no bound on the number of pages makes them return.  Nothing
    has been read from disk or changed by then. *)
Theorem Sync_endless_pages (rs : RepoSync) (w : World) :
  org rs <> "" \/ user rs <> "" ->
  (forall n page, exists repos resp,
      api w n (remote_call rs page) = inl (repos, resp)
      /\ github.NextPage resp <> 0%Z) ->
  forall fuel st,
    load_remote rs w fuel st = None
    /\ Sync rs w fuel st = None
    /\ forall Version fl,
         RepoSync_of fl = rs -> flag_version fl = false ->
         flag_dir fl <> "" -> flag_archivedir fl <> "" -> flag_token fl <> "" ->
         main Version fl w fuel st = None.
Proof.
  intros Hmode Hmore fuel st.
  assert (forall st0, load_remote rs w fuel st0 = None) as Hload.
  { intros st0. rewrite load_remote_eq by exact Hmode.
    now apply pages_endless. }
  assert (forall st0, Sync rs w fuel st0 = None) as HS.
  { intros st0. rewrite Sync_eq, listings_eq. now rewrite Hload. }
  split; [apply Hload|]. split; [apply HS|].
  intros Version fl <- Hv Hd Ha Ht.
  assert ((flag_user fl =? "") && (flag_org fl =? "") = false) as Euo.
  { apply andb_false_iff. rewrite !String.eqb_neq.
    cbn [org user RepoSync_of] in Hmode. tauto. }
  apply String.eqb_neq in Hd, Ha, Ht.
  unfold main. rewrite Hv, Euo, Hd, Ha, Ht. unfold bind. now rewrite HS.
Qed.

(** X10. If the very first page request fails, the remote list is empty
    when [Sync] reconciles: it plans to clone nothing and to archive
    every checkout of the working directory.  When the archive directory
    can be created, one archiving goroutine per checkout is started (in
    the order of the directory listing) and [Sync] returns no error. *)
Theorem Sync_first_request_fails (rs : RepoSync) (w : World) (fuel : nat)
    (err : error) :
  org rs <> "" \/ user rs <> "" ->
  api w 0 (remote_call rs 0) = inr err ->
  mkdir_all w (archivedir rs) 493 = None ->
  exists st',
    Sync rs w (S fuel) init = Some (None, st')
    /\ calls st' = 1
    /\ allRepos st' = []
    /\ currentRepos st' = checkouts w (workdir rs)
    /\ spawned st' = map (archive_events rs w) (checkouts w (workdir rs)).
Proof.
  intros Hmode Hapi Hmk.
  assert (listings rs w (S fuel) init =
          Some (tt, scanned rs w (Some err)
                      (listed (remote_call rs) (remote_skip rs) [0%Z] []
                         (record (Log ("begin loading repos for " ++ org rs
                                       ++ " " ++ user rs)) init)))) as Hl.
  { rewrite listings_eq, load_remote_eq by exact Hmode.
    rewrite pages_step. cbn [calls record init]. now rewrite Hapi. }
  rewrite (Sync_run _ _ _ _ _ Hl). unfold reconciled.
  cbn [scanned listed record init allRepos currentRepos flat_map app].
  rewrite Difference_nil_r, Hmk.
  change (Difference [] (checkouts w (workdir rs))) with (@nil string).
  destruct (checkouts w (workdir rs)) as [|r l] eqn:E.
  - eexists. split; [reflexivity|]. cbn. now rewrite E.
  - cbn [List.length Nat.add Nat.eqb]. eexists. split; [reflexivity|].
    cbn [calls allRepos currentRepos spawned started record scanned listed
         init List.length Nat.add app map].
    rewrite app_nil_r, E. repeat split; reflexivity.
Qed.

(** ** The order of what is observed *)

Lemma subseq_refl (l : list event) : subseq l l.
Proof. induction l; now constructor. Qed.

Lemma subseq_app_r (s l1 l2 : list event) : subseq s l2 -> subseq s (l1 ++ l2).
Proof. intros H. induction l1; [exact H | now constructor]. Qed.

(** Merging keeps the order of the events of every goroutine. *)
Lemma interleave_subseq (ts : list (list event)) (il : list event) :
  interleave ts il -> forall g, In g ts -> subseq g il.
Proof.
  induction 1 as [|ts il H IH|ts1 e t ts2 il H IH]; intros g Hg.
  - destruct Hg.
  - destruct Hg as [<-|Hg]; [constructor | now apply IH].
  - apply in_app_or in Hg. destruct Hg as [Hg|[<-|Hg]].
    + apply subseq_skip, IH, in_or_app. now left.
    + apply subseq_keep, IH, in_elt.
    + apply subseq_skip, IH, in_or_app. right. now right.
Qed.

(** X11. However the goroutines are scheduled, what is observed of a run
    that started them begins with the events of the listings, followed
    by the call to [os.MkdirAll]; after it, the events of each archiving
    and each cloning task occur in the task's own order: its "begin"
    line, then (outside dry-run mode) its rename or its [git clone],
    then its "finished" or "error" line. *)
Theorem Sync_observed_in_order (rs : RepoSync) (w : World) (fuel : nat)
    (st : St) :
  listings rs w fuel init = Some (tt, st) ->
  plan st <> [] ->
  mkdir_all w (archivedir rs) 493 = None ->
  exists st',
    Sync rs w fuel init = Some (None, st')
    /\ observable st' (trace st' ++ List.concat (spawned st'))
    /\ forall t, observable st' t ->
         exists il,
           t = trace st ++ MkdirAll (archivedir rs) 493 :: il
           /\ (forall r, In r (Difference (currentRepos st) (allRepos st)) ->
                 subseq (archive_events rs w r) il)
           /\ (forall r, In r (Difference (allRepos st) (currentRepos st)) ->
                 subseq (clone_events rs w r) il).
Proof.
  intros Hl Hp Hmk. destruct (listings_init _ _ _ _ Hl) as [_ [Hsp _]].
  rewrite (Sync_run _ _ _ _ _ Hl).
  destruct (reconciled_cases rs w st) as [_ Hsome]. rewrite (Hsome Hp), Hmk.
  eexists. split; [reflexivity|]. split; [apply observable_exists|].
  intros t [il [Hil ->]]. exists il.
  cbn [trace spawned started record] in *. rewrite Hsp in Hil. cbn [app] in Hil.
  split; [now rewrite <- app_assoc|].
  split; intros r Hr; apply (interleave_subseq _ _ Hil), in_or_app;
    [left | right]; now apply in_map.
Qed.

(** ** These statements at concrete runs *)

Lemma main_startup_exit_witness :
  flag_token no_token_flags = ""
  /\ exists e,
       main "1.0" no_token_flags acme_world 2 init = Some (1%Z, record e init).
Proof.
  split; [reflexivity|].
  destruct (main_startup_exit "1.0" no_token_flags acme_world 2 init)
    as [code [e [Hm [_ Hfatal]]]].
  - do 4 right. reflexivity.
  - destruct (Hfatal eq_refl) as [-> _]. exists e. exact Hm.
Defined.

Lemma main_exit_status_witness :
  listings (RepoSync_of both_flags) readonly_world 2 init
  = Some (tt, acme_listed)
  /\ exists st', main "1.0" both_flags readonly_world 2 init = Some (1%Z, st').
Proof.
  assert (listings (RepoSync_of both_flags) readonly_world 2 init
          = Some (tt, acme_listed)) as Hl by (vm_compute; reflexivity).
  split; [exact Hl|].
  assert (flag_user both_flags <> "" \/ flag_org both_flags <> "") as Huo
    by (left; discriminate).
  assert (flag_dir both_flags <> "") as Hd by discriminate.
  assert (flag_archivedir both_flags <> "") as Ha by discriminate.
  assert (flag_token both_flags <> "") as Ht by discriminate.
  destruct (main_exit_status "1.0" both_flags readonly_world 2 acme_listed
              eq_refl Huo Hd Ha Ht Hl) as [code [st' [Hm [Hone _]]]].
  exists st'. rewrite Hm. f_equal. f_equal. apply Hone.
  split; [vm_compute; discriminate | discriminate].
Defined.

Lemma Sync_mkdir_failure_witness :
  plan acme_listed = ["x"; "b"; "c"]
  /\ exists st',
       Sync (acme false) readonly_world 2 init
       = Some (Some "mkdir /old: permission denied", st')
       /\ spawned st' = [].
Proof.
  split; [reflexivity|].
  assert (listings (acme false) readonly_world 2 init = Some (tt, acme_listed))
    as Hl by (vm_compute; reflexivity).
  assert (plan acme_listed <> []) as Hp by (vm_compute; discriminate).
  destruct (Sync_mkdir_failure (acme false) readonly_world 2 acme_listed
              "mkdir /old: permission denied" Hl Hp eq_refl)
    as [st' [HS [_ [Hsp _]]]].
  exists st'. split; [exact HS | exact Hsp].
Defined.

Lemma Sync_task_failures_logged_witness :
  exists st',
    Sync (acme false) failing_world 2 init = Some (None, st')
    /\ List.length (spawned st') = 3
    /\ In [Log "begin archiving x"; Rename "/w/x" "/old/x";
           Log "error archiving x: permission denied"] (spawned st')
    /\ In [Log "begin cloning b";
           Exec "git" ["clone"; "git@github.com:acme/b"; "/w/b"];
           Log "error cloning b: exit status 128 from fatal: repository not found"]
         (spawned st').
Proof.
  assert (listings (acme false) failing_world 2 init = Some (tt, acme_listed))
    as Hl by (vm_compute; reflexivity).
  destruct (Sync_task_failures_logged (acme false) failing_world 2 acme_listed
              Hl eq_refl eq_refl) as [st' [HS [Hlen [Harch Hclone]]]].
  exists st'. split; [exact HS|]. split; [exact Hlen|]. split.
  - apply (Harch "x" "permission denied"); [now left | reflexivity].
  - apply (Hclone "b" "fatal: repository not found" "exit status 128");
      [now left | reflexivity].
Defined.

Lemma Sync_changes_only_planned_witness :
  listings (acme false) acme_world 2 init = Some (tt, acme_listed)
  /\ currentRepos acme_listed = checkouts acme_world "/w".
Proof.
  assert (listings (acme false) acme_world 2 init = Some (tt, acme_listed))
    as Hl by (vm_compute; reflexivity).
  split; [exact Hl|].
  exact (proj1 (Sync_changes_only_planned (acme false) acme_world 2
                  acme_listed Hl)).
Defined.

Lemma Sync_acts_iff_names_differ_witness :
  exists ret st',
    Sync (acme false) acme_world 2 init = Some (ret, st')
    /\ ret = None
    /\ trace st' = trace acme_listed ++ [MkdirAll "/old" 493].
Proof.
  assert (listings (acme false) acme_world 2 init = Some (tt, acme_listed))
    as Hl by (vm_compute; reflexivity).
  destruct (Sync_acts_iff_names_differ (acme false) acme_world 2 acme_listed
              Hl) as [ret [st' [HS [_ [Hdiff _]]]]].
  exists ret, st'. split; [exact HS|]. apply Hdiff. exists "x".
  intros [H _]. destruct (H (or_intror (or_introl eq_refl))) as [E|[E|[E|[]]]];
    discriminate E.
Defined.

Lemma Sync_endless_pages_witness :
  Sync (acme false) endless_world 1000 init = None.
Proof.
  assert (org (acme false) <> "" \/ user (acme false) <> "") as Hmode
    by (left; discriminate).
  refine (proj1 (proj2 (Sync_endless_pages (acme false) endless_world Hmode
                          _ 1000 init))).
  intros n page. exists [named "a"], {| github.NextPage := 1 |}.
  split; [reflexivity | discriminate].
Defined.

Lemma Sync_first_request_fails_witness :
  api offline_world 0 (remote_call (acme false) 0) = inr "dial tcp: i/o timeout"
  /\ exists st',
       Sync (acme false) offline_world 1 init = Some (None, st')
       /\ spawned st' =
          [[Log "begin archiving a"; Rename "/w/a" "/old/a";
            Log "finished archiving a"];
           [Log "begin archiving x"; Rename "/w/x" "/old/x";
            Log "finished archiving x"]].
Proof.
  split; [reflexivity|].
  assert (org (acme false) <> "" \/ user (acme false) <> "") as Hmode
    by (left; discriminate).
  destruct (Sync_first_request_fails (acme false) offline_world 0
              "dial tcp: i/o timeout" Hmode eq_refl eq_refl)
    as [st' [HS [_ [_ [_ Hsp]]]]].
  exists st'. split; [exact HS | exact Hsp].
Defined.

Lemma Sync_observed_in_order_witness :
  exists st' il,
    Sync (acme false) acme_world 2 init = Some (None, st')
    /\ observable st' (trace acme_listed ++ MkdirAll "/old" 493 :: il)
    /\ subseq [Log "begin archiving x"; Rename "/w/x" "/old/x";
               Log "finished archiving x"] il.
Proof.
  assert (listings (acme false) acme_world 2 init = Some (tt, acme_listed))
    as Hl by (vm_compute; reflexivity).
  assert (plan acme_listed <> []) as Hp by (vm_compute; discriminate).
  destruct (Sync_observed_in_order (acme false) acme_world 2 acme_listed
              Hl Hp eq_refl) as [st' [HS [Hobs Hord]]].
  destruct (Hord _ Hobs) as [il [Ht [Harch _]]].
  exists st', il. split; [exact HS|].
  split; [exact (eq_ind _ (observable st') Hobs _ Ht)|].
  apply (Harch "x"). now left.
Defined.

(** ** Which account is listed and cloned *)

(** The listings, when the provider serves the run [reqs]. *)
Lemma listings_served (rs : RepoSync) (w : World) (fuel : nat)
    (reqs : list Z) (ps : list (list github.Repository)) (r : option error) :
  org rs <> "" \/ user rs <> "" ->
  served w (remote_call rs) 0 0 reqs ps r ->
  List.length reqs <= fuel ->
  listings rs w fuel init =
  Some (tt, scanned rs w r
              (listed (remote_call rs) (remote_skip rs) reqs ps
                 (record (Log ("begin loading repos for " ++ org rs ++ " "
                               ++ user rs)) init))).
Proof.
  intros Hmode Hs Hfuel. rewrite listings_eq, load_remote_eq by exact Hmode.
  now rewrite (pages_served w (remote_call rs) (remote_skip rs) 0 0 reqs ps r
                 Hs fuel
                 (record (Log ("begin loading repos for " ++ org rs ++ " "
                               ++ user rs)) init) eq_refl Hfuel).
Qed.

(** [Sync] after the listings, when the archive directory can be made. *)
Lemma Sync_after_listings (rs : RepoSync) (w : World) (fuel : nat) (st : St) :
  listings rs w fuel init = Some (tt, st) ->
  mkdir_all w (archivedir rs) 493 = None ->
  exists last st',
    Sync rs w fuel init = Some (None, st')
    /\ trace st' = trace st ++ [last]
    /\ (last = Log "nothing to do!" \/ last = MkdirAll (archivedir rs) 493)
    /\ allRepos st' = allRepos st
    /\ currentRepos st' = currentRepos st
    /\ spawned st' =
       map (archive_events rs w) (Difference (currentRepos st) (allRepos st)) ++
       map (clone_events rs w) (Difference (allRepos st) (currentRepos st)).
Proof.
  intros Hl Hmk. destruct (listings_init _ _ _ _ Hl) as [_ [Hsp _]].
  rewrite (Sync_run _ _ _ _ _ Hl).
  destruct (reconciled_cases rs w st) as [Hnone Hsome].
  fold (plan st) in Hnone, Hsome.
  destruct (list_eq_dec string_dec (plan st) []) as [Hp|Hp].
  - rewrite (Hnone Hp). eexists. eexists. split; [reflexivity|].
    split; [reflexivity|]. split; [now left|]. split; [reflexivity|].
    split; [reflexivity|]. unfold plan in Hp. apply app_eq_nil in Hp.
    destruct Hp as [-> ->]. exact Hsp.
  - rewrite (Hsome Hp), Hmk. eexists. eexists. split; [reflexivity|].
    split; [reflexivity|]. split; [now right|]. split; [reflexivity|].
    split; [reflexivity|]. cbn [spawned started record]. now rewrite Hsp.
Qed.

(** Every command a run of [Sync] is seen to execute is a [git clone]
    from the account of [account]. *)
Lemma Sync_commands (rs : RepoSync) (w : World) (fuel : nat) (st st' : St)
    (last : event) (t : list event) (name : string) (args : list string) :
  listings rs w fuel init = Some (tt, st) ->
  trace st' = trace st ++ [last] ->
  last = Log "nothing to do!" \/ last = MkdirAll (archivedir rs) 493 ->
  spawned st' =
    map (archive_events rs w) (Difference (currentRepos st) (allRepos st)) ++
    map (clone_events rs w) (Difference (allRepos st) (currentRepos st)) ->
  observable st' t -> In (Exec name args) t ->
  exists r,
    name = "git"
    /\ args = ["clone"; ("git@github.com:" ++ account rs ++ "/" ++ r)%string;
               path_Join w (workdir rs) r].
Proof.
  intros Hl Htr Hlast Hsp Hobs He.
  destruct (listings_init _ _ _ _ Hl) as [_ [_ Hq]].
  apply (observable_In st' t Hobs) in He. destruct He as [He|[g [Hg He]]].
  - rewrite Htr in He. apply in_app_or in He. destruct He as [He|[He|[]]].
    + apply Hq in He. discriminate He.
    + destruct Hlast as [->| ->]; discriminate He.
  - rewrite Hsp in Hg. apply in_app_or in Hg.
    destruct Hg as [Hg|Hg]; apply in_map_iff in Hg; destruct Hg as [r [<- _]].
    + destruct (archive_events_mutation rs w r _ He eq_refl) as [_ E].
      discriminate E.
    + destruct (clone_events_mutation rs w r _ He eq_refl) as [_ E].
      injection E as -> ->. now exists r.
Qed.

(** The events of a cloning goroutine outside dry-run mode. *)
Lemma clone_events_run (rs : RepoSync) (w : World) (r : string) :
  dryrun rs = false ->
  clone_events rs w r =
  [Log ("begin cloning " ++ r);
   Exec "git" ["clone"; ("git@github.com:" ++ account rs ++ "/" ++ r)%string;
               path_Join w (workdir rs) r];
   Log (match combined_output w "git"
                ["clone"; ("git@github.com:" ++ account rs ++ "/" ++ r)%string;
                 path_Join w (workdir rs) r] with
        | (_, None) => "finished cloning " ++ r
        | (output, Some err) =>
            "error cloning " ++ r ++ ": " ++ err ++ " from " ++ output
        end)].
Proof. unfold clone_events. now intros ->. Qed.

(** C10. With both a user and an organization given (and the directory,
    archive directory and token), [main] does not stop at start-up: it
    runs [Sync], and when the organization's pages are served and the
    archive directory can be created it exits with status 0.  The run
    lists by organization: its page requests are exactly the
    [ListByOrg] requests for the organization, with the organization's
    type filter and 100 entries per page, and no other request is made;
    every named entry of the pages is in the remote list, forks
    included, whatever the user's fork flag is.  Outside dry-run mode
    each remote name that is not checked out is cloned from
    [git@github.com:<org>/<name>], and every command that is seen to run
    is such a clone from the organization's account. *)
Theorem org_takes_precedence (Version : string) (fl : Flags) (w : World)
    (fuel : nat) (reqs : list Z) (ps : list (list github.Repository)) :
  flag_user fl <> "" -> flag_org fl <> "" ->
  flag_version fl = false -> flag_dir fl <> "" ->
  flag_archivedir fl <> "" -> flag_token fl <> "" ->
  let by_org := fun page =>
    ListByOrg (flag_token fl) (flag_org fl)
      {| github.OrgType := flag_orgrepotype fl;
         github.OrgListOptions :=
           {| github.Page := page; github.PerPage := 100 |} |} in
  served w by_org 0 0 reqs ps None ->
  List.length reqs <= fuel ->
  mkdir_all w (flag_archivedir fl) 493 = None ->
  exists last st',
    main Version fl w fuel init = Some (0%Z, st')
    /\ trace st' =
       [Log ("begin loading repos for " ++ flag_org fl ++ " " ++ flag_user fl)]
       ++ map (fun page => Request (by_org page)) reqs ++
       [Log ("finished loading repos for " ++ flag_org fl ++ " "
             ++ flag_user fl);
        Log ("begin loading repos already cloned in " ++ flag_dir fl);
        ReadDir (flag_dir fl);
        Log ("finished loading repos already cloned in " ++ flag_dir fl);
        last]
    /\ (last = Log "nothing to do!" \/ last = MkdirAll (flag_archivedir fl) 493)
    /\ allRepos st' =
       flat_map (flat_map (fun repo => match github.Name repo with
                                       | Some name => [name]
                                       | None => []
                                       end)) ps
    /\ currentRepos st' = checkouts w (flag_dir fl)
    /\ (flag_dryrun fl = false ->
        forall r, In r (allRepos st') -> ~ In r (currentRepos st') ->
          In [Log ("begin cloning " ++ r);
              Exec "git"
                ["clone"; ("git@github.com:" ++ flag_org fl ++ "/" ++ r)%string;
                 path_Join w (flag_dir fl) r];
              Log (match combined_output w "git"
                           ["clone";
                            ("git@github.com:" ++ flag_org fl ++ "/" ++ r)%string;
                            path_Join w (flag_dir fl) r] with
                   | (_, None) => "finished cloning " ++ r
                   | (output, Some err) =>
                       "error cloning " ++ r ++ ": " ++ err ++ " from "
                       ++ output
                   end)]
            (spawned st'))
    /\ (forall t name args,
          observable st' t -> In (Exec name args) t ->
          exists r,
            name = "git"
            /\ args = ["clone";
                       ("git@github.com:" ++ flag_org fl ++ "/" ++ r)%string;
                       path_Join w (flag_dir fl) r]).
Proof.
  intros Hu Ho Hv Hd Ha Ht by_org Hs Hfuel Hmk.
  set (rs := RepoSync_of fl).
  assert ((org rs =? "") = false) as Eo by (now apply String.eqb_neq).
  assert (remote_call rs = by_org) as Ecall
    by (unfold remote_call; now rewrite Eo).
  assert (remote_skip rs = fun _ => false) as Eskip
    by (unfold remote_skip; now rewrite Eo).
  assert (account rs = flag_org fl) as Eacc
    by (unfold account; now rewrite Eo).
  assert (org rs <> "" \/ user rs <> "") as Hmode by (now left).
  rewrite <- Ecall in Hs.
  pose proof (listings_served rs w fuel reqs ps None Hmode Hs Hfuel) as Hl.
  set (st0 := scanned rs w None
                (listed (remote_call rs) (remote_skip rs) reqs ps
                   (record (Log ("begin loading repos for " ++ org rs ++ " "
                                 ++ user rs)) init))) in Hl.
  destruct (Sync_after_listings rs w fuel st0 Hl Hmk)
    as [last [st' [HS [Htr [Hlast [Hall [Hcur Hsp]]]]]]].
  exists last, st'. split; [|split; [|split; [exact Hlast|split; [|split; [|split]]]]].
  - assert ((flag_user fl =? "") && (flag_org fl =? "") = false) as Euo
      by (apply andb_false_iff; right; exact Eo).
    apply String.eqb_neq in Hd, Ha, Ht.
    unfold main. rewrite Hv, Euo, Hd, Ha, Ht. unfold bind. fold rs.
    now rewrite HS.
  - rewrite Htr. unfold st0. rewrite Ecall.
    cbn [trace scanned listed record init app].
    rewrite <- !app_assoc. reflexivity.
  - rewrite Hall. unfold st0. rewrite Eskip. reflexivity.
  - rewrite Hcur. unfold st0.
    cbn [currentRepos scanned listed record init app].
    reflexivity.
  - intros Hdry r Hr Hnr. rewrite Hsp. apply in_or_app. right.
    assert (In r (Difference (allRepos st0) (currentRepos st0))) as Hin
      by (apply Difference_In; rewrite <- Hall, <- Hcur; now split).
    apply (in_map (clone_events rs w)) in Hin.
    rewrite (clone_events_run rs w r Hdry), Eacc in Hin. exact Hin.
  - intros t name args Hobs He. rewrite <- Eacc.
    exact (Sync_commands rs w fuel _ st' last t name args Hl Htr Hlast Hsp
             Hobs He).
Qed.

(** X12. With no organization and a user, when the user's pages are
    served and the archive directory can be created, [Sync] returns no
    error after a run that lists by user: its page requests are exactly
    the [ListUser] requests for the user, with the user's type filter
    and 1000 entries per page; the remote list holds, in order, the name
    of every entry that has one, except, when [userRepoForks] is false,
    the entries flagged as forks (an entry with no fork flag is kept).
    Outside dry-run mode each remote name that is not checked out is
    cloned from [git@github.com:<user>/<name>], and every command seen
    to run is such a clone from the user's account. *)
Theorem user_mode (rs : RepoSync) (w : World) (fuel : nat) (reqs : list Z)
    (ps : list (list github.Repository)) :
  org rs = "" -> user rs <> "" ->
  let by_user := fun page =>
    ListUser (token rs) (user rs)
      {| github.UserType := userRepoType rs;
         github.UserListOptions :=
           {| github.Page := page; github.PerPage := 1000 |} |} in
  served w by_user 0 0 reqs ps None ->
  List.length reqs <= fuel ->
  mkdir_all w (archivedir rs) 493 = None ->
  exists last st',
    Sync rs w fuel init = Some (None, st')
    /\ trace st' =
       [Log ("begin loading repos for " ++ org rs ++ " " ++ user rs)]
       ++ map (fun page => Request (by_user page)) reqs ++
       [Log ("finished loading repos for " ++ org rs ++ " " ++ user rs);
        Log ("begin loading repos already cloned in " ++ workdir rs);
        ReadDir (workdir rs);
        Log ("finished loading repos already cloned in " ++ workdir rs);
        last]
    /\ (last = Log "nothing to do!" \/ last = MkdirAll (archivedir rs) 493)
    /\ allRepos st' =
       flat_map
         (flat_map (fun repo =>
                      match github.Name repo with
                      | None => []
                      | Some name =>
                          match github.Fork repo with
                          | Some true =>
                              if userRepoForks rs then [name] else []
                          | _ => [name]
                          end
                      end)) ps
    /\ currentRepos st' = checkouts w (workdir rs)
    /\ (dryrun rs = false ->
        forall r, In r (allRepos st') -> ~ In r (currentRepos st') ->
          In [Log ("begin cloning " ++ r);
              Exec "git"
                ["clone"; ("git@github.com:" ++ user rs ++ "/" ++ r)%string;
                 path_Join w (workdir rs) r];
              Log (match combined_output w "git"
                           ["clone";
                            ("git@github.com:" ++ user rs ++ "/" ++ r)%string;
                            path_Join w (workdir rs) r] with
                   | (_, None) => "finished cloning " ++ r
                   | (output, Some err) =>
                       "error cloning " ++ r ++ ": " ++ err ++ " from "
                       ++ output
                   end)]
            (spawned st'))
    /\ (forall t name args,
          observable st' t -> In (Exec name args) t ->
          exists r,
            name = "git"
            /\ args = ["clone";
                       ("git@github.com:" ++ user rs ++ "/" ++ r)%string;
                       path_Join w (workdir rs) r]).
Proof.
  intros Ho Hu by_user Hs Hfuel Hmk.
  assert ((org rs =? "") = true) as Eo by (now apply String.eqb_eq).
  assert (remote_call rs = by_user) as Ecall
    by (unfold remote_call; now rewrite Eo).
  assert (remote_skip rs = skip_fork rs) as Eskip
    by (unfold remote_skip; now rewrite Eo).
  assert (account rs = user rs) as Eacc
    by (unfold account; now rewrite Eo).
  assert (org rs <> "" \/ user rs <> "") as Hmode by (now right).
  rewrite <- Ecall in Hs.
  pose proof (listings_served rs w fuel reqs ps None Hmode Hs Hfuel) as Hl.
  set (st0 := scanned rs w None
                (listed (remote_call rs) (remote_skip rs) reqs ps
                   (record (Log ("begin loading repos for " ++ org rs ++ " "
                                 ++ user rs)) init))) in Hl.
  destruct (Sync_after_listings rs w fuel st0 Hl Hmk)
    as [last [st' [HS [Htr [Hlast [Hall [Hcur Hsp]]]]]]].
  exists last, st'.
  split; [exact HS|split; [|split; [exact Hlast|split; [|split; [|split]]]]].
  - rewrite Htr. unfold st0. rewrite Ecall.
    cbn [trace scanned listed record init app].
    rewrite <- !app_assoc. reflexivity.
  - rewrite Hall. unfold st0. rewrite Eskip.
    cbn [allRepos scanned listed record init app].
    apply flat_map_ext. intros repos. unfold names. apply flat_map_ext.
    intros repo. unfold skip_fork.
    destruct (github.Name repo) as [name|]; [|reflexivity].
    destruct (userRepoForks rs), (github.Fork repo) as [[|]|]; reflexivity.
  - rewrite Hcur. unfold st0.
    cbn [currentRepos scanned listed record init app].
    reflexivity.
  - intros Hdry r Hr Hnr. rewrite Hsp. apply in_or_app. right.
    assert (In r (Difference (allRepos st0) (currentRepos st0))) as Hin
      by (apply Difference_In; rewrite <- Hall, <- Hcur; now split).
    apply (in_map (clone_events rs w)) in Hin.
    rewrite (clone_events_run rs w r Hdry), Eacc in Hin. exact Hin.
  - intros t name args Hobs He. rewrite <- Eacc.
    exact (Sync_commands rs w fuel _ st' last t name args Hl Htr Hlast Hsp
             Hobs He).
Qed.

Lemma org_takes_precedence_witness :
  flag_user both_flags <> "" /\ flag_org both_flags <> ""
  /\ flag_userrepoforks both_flags = false
  /\ exists st',
       main "1.0" both_flags acme_world 2 init = Some (0%Z, st')
       /\ allRepos st' = ["a"; "b"; "c"]
       /\ In (Request (call_org (acme false) 2)) (trace st')
       /\ In [Log "begin cloning b";
              Exec "git" ["clone"; "git@github.com:acme/b"; "/w/b"];
              Log "finished cloning b"] (spawned st').
Proof.
  assert (flag_user both_flags <> "") as Hu by discriminate.
  assert (flag_org both_flags <> "") as Ho by discriminate.
  assert (flag_dir both_flags <> "") as Hd by discriminate.
  assert (flag_archivedir both_flags <> "") as Ha by discriminate.
  assert (flag_token both_flags <> "") as Ht by discriminate.
  split; [exact Hu|]. split; [exact Ho|]. split; [reflexivity|].
  destruct (org_takes_precedence "1.0" both_flags acme_world 2 [0; 2]%Z
              [[named "a"; fork_of "b"; nameless]; [named "c"]]
              Hu Ho eq_refl Hd Ha Ht)
    as [last [st' [Hm [Htr [_ [Hall [Hcur [Hclone _]]]]]]]].
  - apply served_next with {| github.NextPage := 2 |};
      [reflexivity | discriminate |].
    apply served_last with {| github.NextPage := 0 |}; reflexivity.
  - apply le_n.
  - reflexivity.
  - exists st'. split; [exact Hm|]. split; [exact Hall|]. split.
    + rewrite Htr. right. right. now left.
    + apply (Hclone eq_refl "b").
      * rewrite Hall. right. now left.
      * rewrite Hcur. intros [E|[E|[]]]; discriminate E.
Defined.

Lemma user_mode_witness :
  org (config "" "me" false false) = ""
  /\ exists st',
       Sync (config "" "me" false false) acme_world 2 init = Some (None, st')
       /\ allRepos st' = ["a"; "c"]
       /\ In (Request (call_user (config "" "me" false false) 2)) (trace st')
       /\ In [Log "begin cloning c";
              Exec "git" ["clone"; "git@github.com:me/c"; "/w/c"];
              Log "finished cloning c"] (spawned st').
Proof.
  split; [reflexivity|].
  assert (user (config "" "me" false false) <> "") as Hu by discriminate.
  destruct (user_mode (config "" "me" false false) acme_world 2 [0; 2]%Z
              [[named "a"; fork_of "b"; nameless]; [named "c"]] eq_refl Hu)
    as [last [st' [HS [Htr [_ [Hall [Hcur [Hclone _]]]]]]]].
  - apply served_next with {| github.NextPage := 2 |};
      [reflexivity | discriminate |].
    apply served_last with {| github.NextPage := 0 |}; reflexivity.
  - apply le_n.
  - reflexivity.
  - exists st'. split; [exact HS|]. split; [exact Hall|]. split.
    + rewrite Htr. right. right. now left.
    + apply (Hclone eq_refl "c").
      * rewrite Hall. right. now left.
      * rewrite Hcur. intros [E|[E|[]]]; discriminate E.
Defined.
